(** * Bug Surgeon: the analysis orchestration of [debug_orchestrator.py]

    A shallow embedding of the parsers, the content fetcher, the prompt of
    the direct path and the ReAct loop of class [BugSurgeon], with the
    properties of the specification stated over it.

    Python values are modelled as follows.
    - [str] is a sequence of Unicode code points: [list N].
    - [int] is [Z]; [Optional[t]] is [option t]; [Dict[str, str]] is a
      [gmap]; the [set] of requested files is a [gset].
    - An exception raised inside a [try] is [None] in the option monad, the
      [except] clause is the match on it.
    - The text-completion provider and the file content provider are
      parameters: every theorem holds for all of them. *)

From Stdlib Require Import ZArith NArith List String Ascii Lia DecimalString.
From stdpp Require Import base option list gmap strings.

Set Default Proof Using "Type".

(** ** Python strings *)

Module PyStr.

Abbreviation char := N.
Abbreviation str := (list N).

(** A literal of the source, as code points. *)
Definition lit (s : string) : str :=
  N_of_ascii <$> list_ascii_of_string s.
Global Arguments lit _%_string.

Definition nl : char := 10%N.
Definition colon : char := 58%N.
Definition period : char := 46%N.

(** [c.isspace()]: the white space of the Unicode database. *)
Definition isspace (c : char) : bool :=
  ((9 <=? c) && (c <=? 13) || (28 <=? c) && (c <=? 32)
   || (c =? 133) || (c =? 160) || (c =? 5760)
   || (8192 <=? c) && (c <=? 8202)
   || (c =? 8232) || (c =? 8233) || (c =? 8239) || (c =? 8287)
   || (c =? 12288))%N.

Fixpoint lstrip (s : str) : str :=
  match s with
  | c :: s' => if isspace c then lstrip s' else s
  | [] => []
  end.

Definition rstrip (s : str) : str := rev (lstrip (rev s)).

(** [s.strip()] *)
Definition strip (s : str) : str := rstrip (lstrip s).

(** [s.startswith(p)] *)
Fixpoint startswith (s p : str) {struct p} : bool :=
  match p, s with
  | [], _ => true
  | a :: p', b :: s' => (a =? b)%N && startswith s' p'
  | _ :: _, [] => false
  end.

(** [s.split(sep)] for a one-character separator. *)
Fixpoint split (sep : char) (s : str) : list str :=
  match s with
  | [] => [[]]
  | c :: s' =>
      if (c =? sep)%N then [] :: split sep s'
      else match split sep s' with
           | h :: t => (c :: h) :: t
           | [] => [[c]]
           end
  end.

(** [s.split(sep, 1)] *)
Fixpoint split1 (sep : char) (s : str) : list str :=
  match s with
  | [] => [[]]
  | c :: s' =>
      if (c =? sep)%N then [[]; s']
      else match split1 sep s' with
           | h :: t => (c :: h) :: t
           | [] => [[c]]
           end
  end.

(** [sep.join(l)] *)
Fixpoint join (sep : str) (l : list str) : str :=
  match l with
  | [] => []
  | [x] => x
  | x :: l' => x ++ sep ++ join sep l'
  end.

(** [s.find(p)], with [None] for -1. *)
Fixpoint find (s p : str) : option nat :=
  if startswith s p then Some 0
  else match s with
       | [] => None
       | _ :: s' => S <$> find s' p
       end.

(** [p in s] *)
Definition contains (p s : str) : bool :=
  match find s p with Some _ => true | None => false end.

(** Truth value of a string: [if s:]. *)
Definition truthy (s : str) : bool :=
  match s with [] => false | _ :: _ => true end.

(** [str(n)] and [f"{n}"] for an [int]. *)
Definition str_of_int (n : Z) : str :=
  lit (NilZero.string_of_int (Z.to_int n)).

(** *** [re.search] and [re.findall] for [open(.*?)close] with [re.DOTALL]

    The pattern is a literal, a lazy group and a literal.  The leftmost match
    starts at the first occurrence of [open] that has an occurrence of
    [close] after it, and the lazy group stops at the first such [close].  If
    the first [open] has no [close] after it, no later one has, so the
    search is: first [open], then first [close] behind it. *)
Definition re_search_group (opn cls : str) (s : str) : option str :=
  i ← find s opn;
  let rest := drop (i + length opn) s in
  j ← find rest cls;
  Some (take j rest).

(** [re.findall]: matches are taken left to right and do not overlap;
    [skip] counts the characters of the last match still to pass. *)
Fixpoint re_findall_from (opn cls : str) (skip : nat) (s : str) : list str :=
  match s with
  | [] => []
  | _ :: s' =>
      match skip with
      | S k => re_findall_from opn cls k s'
      | 0 =>
          if startswith s opn then
            let rest := drop (length opn) s in
            match find rest cls with
            | Some j =>
                take j rest
                  :: re_findall_from opn cls
                       (length opn + j + length cls - 1) s'
            | None => re_findall_from opn cls 0 s'
            end
          else re_findall_from opn cls 0 s'
      end
  end.

Definition re_findall (opn cls : str) (s : str) : list str :=
  re_findall_from opn cls 0 s.

(** *** [int(s)] for a [str]

    [None] stands for [ValueError].  The decimal digits are those of the
    Unicode database (general category Nd, version 14.0): each script has its
    ten digits in a row, [decimal_zeros] lists the code points of the
    zeros. *)
Definition decimal_zeros : list N :=
  [48; 1632; 1776; 1984; 2406; 2534; 2662; 2790; 2918; 3046; 3174; 3302;
   3430; 3558; 3664; 3792; 3872; 4160; 4240; 6112; 6160; 6470; 6608; 6784;
   6800; 6992; 7088; 7232; 7248; 42528; 43216; 43264; 43472; 43504; 43600;
   44016; 65296; 66720; 68912; 69734; 69872; 69942; 70096; 70384; 70736;
   70864; 71248; 71360; 71472; 71904; 72016; 72784; 73040; 73120; 92768;
   92864; 93008; 120782; 120792; 120802; 120812; 120822; 123200; 123632;
   125264; 130032]%N.

Definition to_decimal (c : char) : option Z :=
  (fun z => Z.of_N (c - z)) <$>
    List.find (fun z => (z <=? c) && (c <? z + 10))%N decimal_zeros.

(** White space as [int] strips it: the C locale's below 128, the Unicode
    database's above. *)
Definition int_space (c : char) : bool :=
  if (c <? 128)%N then ((9 <=? c) && (c <=? 13) || (c =? 32))%N
  else isspace c.

Fixpoint int_lstrip (s : str) : str :=
  match s with
  | c :: s' => if int_space c then int_lstrip s' else s
  | [] => []
  end.

Definition underscore : char := 95%N.

(** Digits with single underscores between them; [acc] is the value and
    [n] the number of digits read so far, [prev_digit] tells whether the
    last character was a digit. *)
Fixpoint int_digits (prev_digit : bool) (acc : Z) (n : nat) (s : str)
  : option (Z * nat) :=
  match s with
  | [] => if prev_digit then Some (acc, n) else None
  | c :: s' =>
      if (c =? underscore)%N then
        if prev_digit then int_digits false acc n s' else None
      else
        d ← to_decimal c;
        int_digits true (10 * acc + d)%Z (S n) s'
  end.

(** [sys.get_int_max_str_digits()], by default. *)
Definition int_max_str_digits : nat := 4300.

Definition py_int (s : str) : option Z :=
  let s := rev (int_lstrip (rev (int_lstrip s))) in
  let '(sign, body) :=
    match s with
    | 43%N :: s' => (1%Z, s')
    | 45%N :: s' => ((-1)%Z, s')
    | _ => (1%Z, s)
    end in
  '(v, n) ← int_digits false 0%Z 0 body;
  if decide (n ≤ int_max_str_digits) then Some (sign * v)%Z else None.

(** Python's [l[start:stop]] for a list, with its negative indices. *)
Definition slice_index (len i : Z) : nat :=
  Z.to_nat (Z.min len (Z.max 0 (if (i <? 0)%Z then len + i else i)))%Z.

Definition slice {A} (l : list A) (start stop : Z) : list A :=
  let len := Z.of_nat (length l) in
  let a := slice_index len start in
  let b := slice_index len stop in
  take (b - a) (drop a l).

End PyStr.
Import PyStr.

(** ** Data model *)

(** [class BugAnalysis] *)
Record BugAnalysis := {
  root_cause : str;
  explanation : str;
  file_changes : gmap str str;
  reasoning_trace : list str;
  confidence : str
}.

(** [class ToolRequest] *)
Record ToolRequest := {
  tool : str;
  file_path : option str;
  start_line : option Z;
  end_line : option Z
}.

(** [analysis.reasoning_trace = t] *)
Definition set_reasoning_trace (a : BugAnalysis) (t : list str) : BugAnalysis :=
  {| root_cause := root_cause a; explanation := explanation a;
     file_changes := file_changes a; reasoning_trace := t;
     confidence := confidence a |}.

(** A [for] loop whose body may raise: the first [None] ends it. *)
Fixpoint for_each {S A} (body : S → A → option S) (l : list A) (st : S)
  : option S :=
  match l with
  | [] => Some st
  | x :: l' => st' ← body st x; for_each body l' st'
  end.

(** [line.split(':', 1)[1].strip()]; the index raises when the line has no
    colon. *)
Definition after_colon (line : str) : option str :=
  strip <$> split1 colon line !! 1.

(** ** Response parser *)

Module ResponseParser.

Definition thinking_spans (response_text : str) : list str :=
  strip <$> re_findall (lit "<thinking>") (lit "</thinking>") response_text.

(** [_create_fallback_analysis] *)
Definition _create_fallback_analysis (response_text : str) : BugAnalysis :=
  let reasoning_trace := thinking_spans response_text in
  let sentences := split period response_text in
  let root_cause :=
    match sentences with
    | s0 :: _ => s0
    | [] => lit "Analysis provided"
    end in
  {| root_cause :=
       if decide (200 < length root_cause)
       then take 200 root_cause ++ lit "..." else root_cause;
     explanation :=
       if decide (500 < length response_text)
       then take 500 response_text ++ lit "..." else response_text;
     file_changes := {[ lit "analysis.md" := response_text ]};
     reasoning_trace := reasoning_trace;
     confidence := lit "MEDIUM" |}.

(** The three variables assigned by the scan of the analysis block. *)
Record fields := {
  f_root_cause : str;
  f_explanation : str;
  f_confidence : str
}.

Definition initial_fields : fields :=
  {| f_root_cause := []; f_explanation := []; f_confidence := lit "MEDIUM" |}.

(** The body of [for line in analysis_text.split('\n')]. *)
Definition scan_line (st : fields) (raw : str) : option fields :=
  let line := strip raw in
  if startswith line (lit "ROOT_CAUSE:") then
    v ← after_colon line;
    Some {| f_root_cause := v; f_explanation := f_explanation st;
            f_confidence := f_confidence st |}
  else if startswith line (lit "EXPLANATION:") then
    v ← after_colon line;
    Some {| f_root_cause := f_root_cause st; f_explanation := v;
            f_confidence := f_confidence st |}
  else if startswith line (lit "CONFIDENCE:") then
    v ← after_colon line;
    Some {| f_root_cause := f_root_cause st; f_explanation := f_explanation st;
            f_confidence := v |}
  else Some st.

(** The [try] block of [extract_analysis]; [None] is a raised exception. *)
Definition extract_analysis_try (response_text : str) : option BugAnalysis :=
  match re_search_group (lit "<analysis>") (lit "</analysis>") response_text with
  | None => Some (_create_fallback_analysis response_text)
  | Some analysis_text =>
      st ← for_each scan_line (split nl analysis_text) initial_fields;
      let solution_text :=
        default [] (re_search_group (lit "<solution>") (lit "</solution>")
                      response_text) in
      let reasoning_trace := thinking_spans response_text in
      Some {| root_cause :=
                if truthy (f_root_cause st) then f_root_cause st
                else lit "Analysis completed";
              explanation :=
                if truthy (f_explanation st) then f_explanation st
                else take 500 response_text ++ lit "...";
              file_changes := {[ lit "solution.md" := solution_text ]};
              reasoning_trace := reasoning_trace;
              confidence := f_confidence st |}
  end.

(** [extract_analysis], of type [Optional[BugAnalysis]]: the [except] clause
    returns the fallback record. *)
Definition extract_analysis (response_text : str) : option BugAnalysis :=
  match extract_analysis_try response_text with
  | Some a => Some a
  | None => Some (_create_fallback_analysis response_text)
  end.

End ResponseParser.
Import ResponseParser.

(** ** Tool-request parser *)

Module ToolParser.

(** [file_path], [start_line] and [end_line] of one marker. *)
Record window_vars := {
  w_file_path : option str;
  w_start_line : option Z;
  w_end_line : option Z
}.

Definition initial_window : window_vars :=
  {| w_file_path := None; w_start_line := None; w_end_line := None |}.

(** The body of [for j in range(i + 1, min(i + 5, len(lines)))]. *)
Definition scan_field (st : window_vars) (raw : str) : option window_vars :=
  let next_line := strip raw in
  if startswith next_line (lit "FILE:") then
    v ← after_colon next_line;
    Some {| w_file_path := Some v; w_start_line := w_start_line st;
            w_end_line := w_end_line st |}
  else if startswith next_line (lit "START_LINE:") then
    v ← after_colon next_line;
    match py_int v with
    | Some n => Some {| w_file_path := w_file_path st; w_start_line := Some n;
                        w_end_line := w_end_line st |}
    | None => Some st
    end
  else if startswith next_line (lit "END_LINE:") then
    v ← after_colon next_line;
    match py_int v with
    | Some n => Some {| w_file_path := w_file_path st;
                        w_start_line := w_start_line st; w_end_line := Some n |}
    | None => Some st
    end
  else Some st.

(** [lines[j]] for [j] in [range(i + 1, min(i + 5, len(lines)))]. *)
Definition window (lines : list str) (i : nat) : list str :=
  (λ j, default [] (lines !! j)) <$> seq (i + 1) (min (i + 5) (length lines) - (i + 1)).

(** [if file_path:] for the optional path. *)
Definition path_given (p : option str) : bool :=
  match p with Some s => truthy s | None => false end.

(** One turn of the [while] loop, at index [i]: the requests it appends. *)
Definition request_at (lines : list str) (i : nat) : list ToolRequest :=
  let line := strip (default [] (lines !! i)) in
  if startswith line (lit "TOOL_REQUEST:") then
    match
      tool_type ← after_colon line;
      st ← for_each scan_field (window lines i) initial_window;
      Some (tool_type, st)
    with
    | Some (tool_type, st) =>
        if path_given (w_file_path st) then
          [ {| tool := tool_type; file_path := w_file_path st;
               start_line := w_start_line st; end_line := w_end_line st |} ]
        else []
    | None => []
    end
  else [].

(** [parse_tool_requests]: [i] runs from 0 to [len(lines) - 1], one step at
    a time. *)
Definition parse_tool_requests (response_text : str) : list ToolRequest :=
  let lines := split nl response_text in
  flat_map (request_at lines) (seq 0 (length lines)).

End ToolParser.
Import ToolParser.

(** ** Content fetcher *)

Module Fetcher.

(** What a call of a provider does: it returns text or raises [e]. *)
Inductive provider_result :=
  | Ok (content : str)
  | Raise (e : str).

(** A path of the local file system: [Path.exists()] is false, or
    [Path.read_text] returns or raises. *)
Inductive local_entry :=
  | Missing
  | Present (read_text : provider_result).

(** [self.repo] ([None] in local mode, else [get_contents] and its decoding)
    and the local file system. *)
Record environment := {
  repo : option (str → provider_result);
  local_fs : str → local_entry
}.

(** [if n:] for an [Optional[int]]. *)
Definition given (n : option Z) : bool :=
  match n with Some z => negb (z =? 0)%Z | None => false end.

(** The part of [read_file_content] behind the read. *)
Definition frame (file_path : str) (start_line end_line : option Z)
  (content : str) : str :=
  if given start_line || given end_line then
    let lines := split nl content in
    let start := if given start_line then (default 0 start_line - 1)%Z else 0%Z in
    let end_ := if given end_line then default 0%Z end_line
                else Z.of_nat (length lines) in
    let content := join [nl] (slice lines start end_) in
    lit "# " ++ file_path ++ lit " lines " ++ str_of_int (start + 1)
      ++ lit "-" ++ str_of_int end_ ++ [nl] ++ content
  else lit "# " ++ file_path ++ [nl] ++ content.

(** [read_file_content] *)
Definition read_file_content (env : environment) (file_path : str)
  (start_line end_line : option Z) : str :=
  match repo env with
  | Some get_contents =>
      match get_contents file_path with
      | Ok content => frame file_path start_line end_line content
      | Raise e => lit "Error reading file: " ++ e
      end
  | None =>
      match local_fs env file_path with
      | Missing => lit "File not found: " ++ file_path
      | Present (Ok content) => frame file_path start_line end_line content
      | Present (Raise e) => lit "Error reading file: " ++ e
      end
  end.

End Fetcher.
Import Fetcher.

(** ** The text-completion provider and the conversation *)

Inductive role := user | assistant.

Record message := { msg_role : role; content : str }.

(** [self.claude.messages.create(...)] followed by
    [response.content[0].text] *)
Inductive response :=
  | Reply (response_text : str)
  | ProviderError (e : str).

(** The provider: its answer to the [n]-th call of an invocation, for the
    conversation it is sent. *)
Definition provider := nat → list message → response.

(** [logger] *)
Inductive log_level := INFO | WARNING | ERROR.

(** ** Direct analysis path *)

Module Direct.

Definition unlines (l : list string) : str := join [nl] (lit <$> l).

Definition prompt_head (issue_description : str) : str :=
  [nl] ++ issue_description ++ [nl]
  ++ unlines [""; "Please analyze this systematically and identify the root cause."; ""].

Definition prompt_tail : str :=
  unlines [""; "Provide your analysis in this format:"; "<analysis>";
           "ROOT_CAUSE: Brief description of the root cause";
           "EXPLANATION: Detailed explanation of why this issue occurs";
           "CONFIDENCE: HIGH/MEDIUM/LOW based on available evidence";
           "</analysis>"; ""; "<solution>";
           "Provide the corrected code with clear explanations";
           "</solution>"; ""].

(** The body of [for file_path in file_paths], on the prompt and the log. *)
Definition add_file (env : environment)
  (acc : str * list (log_level * str)) (file_path : str)
  : str * list (log_level * str) :=
  let '(comprehensive_prompt, log) := acc in
  let file_content := read_file_content env file_path None None in
  if negb (contains (lit "Error reading file") file_content) then
    (comprehensive_prompt
       ++ [nl] ++ lit "```python" ++ [nl] ++ file_content ++ [nl]
       ++ lit "```" ++ [nl],
     log ++ [(INFO, lit "Added content for " ++ file_path)])
  else
    (comprehensive_prompt,
     log ++ [(WARNING, lit "Could not read " ++ file_path)]).

(** The prompt that [analyze_bug_direct] sends, and what it logs on the
    way. *)
Definition direct_prompt (env : environment) (issue_description : str)
  (file_paths : option (list str)) : str * list (log_level * str) :=
  let start := (prompt_head issue_description,
                [(INFO, lit "Starting direct bug analysis...")]) in
  let '(body, log) :=
    match file_paths with
    | Some ((_ :: _) as paths) =>
        foldl (add_file env)
          (start.1 ++ unlines [""; ""; "Relevant file contents:"; ""], start.2)
          paths
    | _ => start
    end in
  (body ++ prompt_tail, log).

(** [analyze_bug_direct] *)
Definition analyze_bug_direct (env : environment) (claude : provider)
  (issue_description : str) (file_paths : option (list str))
  : option BugAnalysis :=
  let comprehensive_prompt := (direct_prompt env issue_description file_paths).1 in
  match claude 0 [ {| msg_role := user; content := comprehensive_prompt |} ] with
  | Reply response_text =>
      match extract_analysis response_text with
      | Some analysis =>
          Some (set_reasoning_trace analysis
                  [lit "Direct analysis: " ++ take 200 response_text ++ lit "..."])
      | None => Some (_create_fallback_analysis response_text)
      end
  | ProviderError _ => None
  end.

End Direct.
Import Direct.

(** ** ReAct analysis path *)

Module ReAct.

(** The variables of [_analyze_bug_react], and two counters that the code
    does not have: the paths handed to [read_file_content], in call order,
    and the number of calls of the model. *)
Record state := {
  messages : list message;
  iteration : Z;
  trace : list str;
  requested_files : gset str;
  fetched : list str;
  model_calls : nat
}.

(** The variables the loop over the requests of one reply updates. *)
Record batch := {
  b_messages : list message;
  b_requested_files : gset str;
  b_new_files_added : bool;
  b_fetched : list str
}.

Definition file_turn (path file_content : str) : message :=
  {| msg_role := user;
     content := lit "File content for " ++ path ++ lit ":" ++ [nl]
                ++ file_content ++ [nl; nl]
                ++ lit "Now please provide your final analysis with <analysis> and <solution> blocks." |}.

Definition forcing_turn : message :=
  {| msg_role := user;
     content := lit "Please provide your final analysis now with <analysis> and <solution> blocks." |}.

(** The body of [for tool_request in tool_requests]. *)
Definition process_request (env : environment) (b : batch) (r : ToolRequest)
  : batch :=
  if bool_decide (tool r = lit "read_file") && path_given (file_path r) then
    let path := default [] (file_path r) in
    if bool_decide (path ∉ b_requested_files b) then
      let file_content :=
        read_file_content env path (start_line r) (end_line r) in
      {| b_messages := b_messages b ++ [file_turn path file_content];
         b_requested_files := b_requested_files b ∪ {[ path ]};
         b_new_files_added := true;
         b_fetched := b_fetched b ++ [path] |}
    else b
  else b.

(** What one turn of the [while] loop does: it returns from the function,
    or goes on. *)
Inductive turn :=
  | Return (analysis : BugAnalysis) (st : state)
  | Continue (st : state).

(** The body of [while iteration < max_iterations]. *)
Definition react_iteration (env : environment) (claude : provider)
  (st : state) : turn :=
  match claude (model_calls st) (messages st) with
  | ProviderError _ =>
      Continue {| messages := messages st; iteration := iteration st + 1;
                  trace := trace st; requested_files := requested_files st;
                  fetched := fetched st; model_calls := S (model_calls st) |}
  | Reply response_text =>
      let reasoning_trace :=
        trace st ++ [lit "Iteration " ++ str_of_int (iteration st + 1)
                     ++ lit ": " ++ take 200 response_text ++ lit "..."] in
      let tool_requests := parse_tool_requests response_text in
      match tool_requests with
      | _ :: _ =>
          let b :=
            foldl (process_request env)
              {| b_messages := messages st
                   ++ [ {| msg_role := assistant; content := response_text |} ];
                 b_requested_files := requested_files st;
                 b_new_files_added := false;
                 b_fetched := fetched st |}
              tool_requests in
          Continue {| messages :=
                        if b_new_files_added b then b_messages b
                        else b_messages b ++ [forcing_turn];
                      iteration := iteration st + 1;
                      trace := reasoning_trace;
                      requested_files := b_requested_files b;
                      fetched := b_fetched b;
                      model_calls := S (model_calls st) |}
      | [] =>
          let st' := {| messages := messages st; iteration := iteration st;
                        trace := reasoning_trace;
                        requested_files := requested_files st;
                        fetched := fetched st;
                        model_calls := S (model_calls st) |} in
          match extract_analysis response_text with
          | Some analysis =>
              Return (set_reasoning_trace analysis reasoning_trace) st'
          | None => Continue st'
          end
      end
  end.

Definition exhausted_text : str :=
  lit "Analysis attempted but max iterations reached".

(** The [while] loop and the [return] behind it.  [None]: the fuel ran
    out. *)
Fixpoint react_loop (env : environment) (claude : provider)
  (max_iterations : Z) (fuel : nat) (st : state)
  : option (BugAnalysis * state) :=
  match fuel with
  | 0 => None
  | S fuel' =>
      if (iteration st <? max_iterations)%Z then
        match react_iteration env claude st with
        | Return analysis st' => Some (analysis, st')
        | Continue st' => react_loop env claude max_iterations fuel' st'
        end
      else Some (_create_fallback_analysis exhausted_text, st)
  end.

Definition initial_state (issue_description : str) : state :=
  {| messages :=
       [ {| msg_role := user;
            content := lit "Please analyze this bug report and identify the root cause:"
                       ++ [nl; nl] ++ issue_description |} ];
     iteration := 0;
     trace := [];
     requested_files := ∅;
     fetched := [];
     model_calls := 0 |}.

(** [_analyze_bug_react]: the returned record, and the variables at the
    return. *)
Definition _analyze_bug_react (env : environment) (claude : provider)
  (issue_description : str) (max_iterations : Z)
  : option (BugAnalysis * state) :=
  react_loop env claude max_iterations (S (Z.to_nat max_iterations))
    (initial_state issue_description).

End ReAct.
Import ReAct.

(** ** Vocabulary of the specification *)

Module Spec.

(** A line carries [label]: trimmed, it begins with it. *)
Definition labelled (label : str) (raw : str) : bool :=
  startswith (strip raw) label.

(** The value of a labelled line: what follows the label, trimmed.  The
    labels end with their only colon, so this is the trimmed text after the
    first colon of the line. *)
Definition value_of (label : str) (raw : str) : str :=
  strip (drop (length label) (strip raw)).

(** The values of the lines that carry [label], top to bottom. *)
Definition field_values (label : str) (lines : list str) : list str :=
  value_of label <$> List.filter (labelled label) lines.

(** The value a top-to-bottom scan ends with: that of the last such line. *)
Definition last_value (label : str) (lines : list str) : option str :=
  last (field_values label lines).

(** The last value of [label] that reads as an integer. *)
Definition last_int (label : str) (lines : list str) : option Z :=
  last (omap py_int (field_values label lines)).

(** A label: some text without a colon, and a colon. *)
Definition is_label (label : str) : bool :=
  match rev label with
  | c :: body => (c =? colon)%N && forallb (λ x, negb (x =? colon)%N) body
  | [] => false
  end.

(** The request of the marker at line [i], as the specification words it
    once the file path must be resolvable: the marker's tool, the last
    [FILE:] value of the next four lines, which must not be empty, and the
    last readable line numbers. *)
Definition spec_request_at (lines : list str) (i : nat) : option ToolRequest :=
  raw ← lines !! i;
  if labelled (lit "TOOL_REQUEST:") raw then
    let next4 := take 4 (drop (S i) lines) in
    path ← last_value (lit "FILE:") next4;
    if truthy path then
      Some {| tool := value_of (lit "TOOL_REQUEST:") raw;
              file_path := Some path;
              start_line := last_int (lit "START_LINE:") next4;
              end_line := last_int (lit "END_LINE:") next4 |}
    else None
  else None.

Definition spec_parse_tool_requests (response_text : str) : list ToolRequest :=
  let lines := split nl response_text in
  omap (spec_request_at lines) (seq 0 (length lines)).

(** The marker lines that have a [FILE:] line among the next four. *)
Definition markers_with_file_line (response_text : str) : list nat :=
  let lines := split nl response_text in
  List.filter
    (λ i, labelled (lit "TOOL_REQUEST:") (default [] (lines !! i))
          && existsb (labelled (lit "FILE:")) (take 4 (drop (S i) lines)))
    (seq 0 (length lines)).

(** The lines numbered [first] to [last], counted from 1, both included. *)
Definition lines_between (lines : list str) (first last : nat) : list str :=
  take (last - (first - 1)) (drop (first - 1) lines).

(** The file content provider behind [read_file_content]: [None] when the
    file is not found. *)
Definition provide (env : environment) (file_path : str)
  : option provider_result :=
  match repo env with
  | Some get_contents => Some (get_contents file_path)
  | None =>
      match local_fs env file_path with
      | Missing => None
      | Present r => Some r
      end
  end.

(** A request that the ReAct loop acts on: a [read_file] of a path it has
    not fetched yet. *)
Definition yields_new_file (requested : gset str) (r : ToolRequest) : Prop :=
  tool r = lit "read_file"
  ∧ ∃ path, file_path r = Some path ∧ path ≠ [] ∧ path ∉ requested.

(** What the ReAct loop keeps true of its set and of the fetches made so
    far. *)
Definition fetched_once (fetched : list str) (requested : gset str) : Prop :=
  NoDup fetched ∧ ∀ path, path ∈ fetched → path ∈ requested.

(** How often [path] went to the content fetcher. *)
Definition fetch_count (path : str) (st : state) : nat :=
  length (List.filter (λ q, bool_decide (q = path)) (fetched st)).

End Spec.
Import Spec.

(** ** A small scenario

    One file [a.py] on the local disk, and providers that ask for it, that
    conclude, or that fail. *)

Module Scenario.

Definition disk : environment :=
  {| repo := None;
     local_fs := λ path,
       if bool_decide (path = lit "a.py")
       then Present (Ok (unlines ["def f():"; "    return None"]))
       else Missing |}.

Definition issue : str := lit "AttributeError in f".

Definition asks_for_a : str :=
  unlines ["I need the file."; "TOOL_REQUEST: read_file"; "FILE: a.py"].

Definition concludes : str :=
  unlines ["<analysis>"; "ROOT_CAUSE: f returns None";
           "EXPLANATION: the caller reads an attribute of the result";
           "CONFIDENCE: HIGH"; "</analysis>"].

Definition insistent : provider := λ _ _, Reply asks_for_a.

Definition decided : provider := λ _ _, Reply concludes.

Definition failing : provider := λ _ _, ProviderError (lit "timeout").

(** The loop after one turn in which [a.py] was fetched. *)
Definition after_a : state :=
  {| messages := messages (initial_state issue);
     iteration := 1;
     trace := [];
     requested_files := {[ lit "a.py" ]};
     fetched := [lit "a.py"];
     model_calls := 1 |}.

Definition read_a : ToolRequest :=
  {| tool := lit "read_file"; file_path := Some (lit "a.py");
     start_line := None; end_line := None |}.

End Scenario.

(** ** File resolver and orchestrator *)

Module Resolver.

Definition quote : char := 34%N.

(** [[a-zA-Z_]] *)
Definition is_name_start (c : char) : bool :=
  ((65 <=? c) && (c <=? 90) || (97 <=? c) && (c <=? 122) || (c =? 95))%N.

(** [[a-zA-Z0-9_/]] *)
Definition is_name_char (c : char) : bool :=
  is_name_start c || ((48 <=? c) && (c <=? 57) || (c =? 47))%N.

(** The class of every character but the quote. *)
Definition is_not_quote (c : char) : bool := negb (c =? quote)%N.

(** The longest prefix of characters of a class, and what is behind it: a
    greedy [[...]*]. *)
Fixpoint span (p : char → bool) (s : str) : str * str :=
  match s with
  | c :: s' => if p c then let '(run, rest) := span p s' in (c :: run, rest)
               else ([], s)
  | [] => ([], [])
  end.

(** [s.endswith(p)] *)
Definition endswith (s p : str) : bool := startswith (rev s) (rev p).

(** A match of [[a-zA-Z_][a-zA-Z0-9_/]*\.py] at the start of [s]: the star
    takes the longest run, since a shorter one is followed by a character of
    the class and not by the dot. *)
Definition match_path (s : str) : option str :=
  match s with
  | c :: s' =>
      if is_name_start c then
        let '(run, rest) := span is_name_char s' in
        if startswith rest (lit ".py") then Some (c :: run ++ lit ".py")
        else None
      else None
  | [] => None
  end.

(** The three patterns, as matchers at the start of [s] that give the group
    and the length of the match. *)

(** The pattern of a traceback line: [File], a space, a quote, the group and
    a quote, where the group is one or more characters that are no quote and
    then [.py].  The group runs to the next quote, so it is the longest run
    without a quote, which has to end with [.py] behind at least one more
    character. *)
Definition pattern_traceback (s : str) : option (str * nat) :=
  if startswith s (lit "File " ++ [quote]) then
    let '(run, rest) := span is_not_quote (drop 6 s) in
    match rest with
    | _ :: _ =>
        if bool_decide (4 ≤ length run) && endswith run (lit ".py")
        then Some (run, 6 + length run + 1) else None
    | [] => None
    end
  else None.

(** [in ([a-zA-Z_][a-zA-Z0-9_/]*\.py)] *)
Definition pattern_in (s : str) : option (str * nat) :=
  if startswith s (lit "in ") then
    g ← match_path (drop 3 s); Some (g, 3 + length g)
  else None.

(** [([a-zA-Z_][a-zA-Z0-9_/]*\.py)] *)
Definition pattern_bare (s : str) : option (str * nat) :=
  g ← match_path s; Some (g, length g).

(** [re.findall] for a pattern with one group whose matches are not empty:
    a match is looked for at each place from left to right, and the search
    goes on behind a match; [skip] counts the characters of the last match
    still to pass. *)
Fixpoint findall_from (match_at : str → option (str * nat)) (skip : nat)
  (s : str) : list str :=
  match s with
  | [] => []
  | _ :: s' =>
      match skip with
      | S k => findall_from match_at k s'
      | 0 =>
          match match_at s with
          | Some (g, len) => g :: findall_from match_at (len - 1) s'
          | None => findall_from match_at 0 s'
          end
      end
  end.

Definition findall (match_at : str → option (str * nat)) (s : str) : list str :=
  findall_from match_at 0 s.

Definition file_patterns : list (str → option (str * nat)) :=
  [pattern_traceback; pattern_in; pattern_bare].

(** The comprehension over [Path(file_path).exists()]; [path_exists] gives
    the answer of the file system, [None] when the call raises. *)
Fixpoint existing (path_exists : str → option bool) (files : list str)
  : option (list str) :=
  match files with
  | [] => Some []
  | file_path :: files' =>
      b ← path_exists file_path;
      rest ← existing path_exists files';
      Some (if b : bool then file_path :: rest else rest)
  end.

(** [_extract_file_paths]; [None] when it raises. *)
Definition _extract_file_paths (path_exists : str → option bool)
  (issue_description : str) : option (list str) :=
  let files := flat_map (λ pattern, findall pattern issue_description)
                 file_patterns in
  existing path_exists files.

(** [analyze_bug]; the outer [None] is an exception that leaves it, the
    inner one is its result [None]. *)
Definition analyze_bug (path_exists : str → option bool) (env : environment)
  (claude : provider) (issue_description : str) (max_iterations : Z)
  : option (option BugAnalysis) :=
  mentioned_files ← _extract_file_paths path_exists issue_description;
  Some match mentioned_files with
       | _ :: _ =>
           analyze_bug_direct env claude issue_description (Some mentioned_files)
       | [] =>
           fst <$> _analyze_bug_react env claude issue_description max_iterations
       end.

End Resolver.
Import Resolver.

(** ** Model selection *)

Module Startup.

Definition AVAILABLE_MODELS : list str :=
  [lit "claude-3-5-sonnet-20240620"; lit "claude-3-sonnet-20240229";
   lit "claude-3-haiku-20240307"].

(** The loop of [_find_working_model]; [works model] tells whether the test
    call with [model] returns, and not raises. *)
Fixpoint first_working (works : str → bool) (models : list str) : option str :=
  match models with
  | [] => None
  | model :: models' =>
      if works model then Some model else first_working works models'
  end.

(** [_find_working_model] *)
Definition _find_working_model (works : str → bool) : str :=
  match first_working works AVAILABLE_MODELS with
  | Some model => model
  | None => default [] (AVAILABLE_MODELS !! 0)
  end.

End Startup.
Import Startup.

(** ** Publishing an analysis *)

Module Publish.

(** What [create_analysis_pr] reads of an [Issue]. *)
Record issue := { number : Z; title : str }.

(** The calls of [create_analysis_pr] on [self.repo], with their
    arguments. *)
Inductive repo_call :=
  | GetGitRef (ref : str)
  | CreateGitRef (ref sha : str)
  | CreateFile (path message content branch : str)
  | CreatePullRequest (pr_title body head base : str).

(** The repository: what a call returns (the sha of the ref, the url of the
    pull request, nothing of interest otherwise), or the exception that it
    raises, as text. *)
Definition repository := repo_call → provider_result.

Definition robot : char := 129302%N.
Definition wrench : char := 128295%N.

Definition new_branch (i : issue) : str :=
  lit "bug-surgeon/fix-issue-" ++ str_of_int (number i).

(** The report before the loop over the reasoning trace. *)
Definition report_head (i : issue) (analysis : BugAnalysis) : str :=
  lit "# Bug Analysis Report - Issue #" ++ str_of_int (number i) ++ [nl; nl]
  ++ lit "## Root Cause" ++ [nl] ++ root_cause analysis ++ [nl; nl]
  ++ lit "## Detailed Explanation  " ++ [nl] ++ explanation analysis ++ [nl; nl]
  ++ lit "## Confidence Level" ++ [nl] ++ confidence analysis ++ [nl; nl]
  ++ lit "## Reasoning Trace" ++ [nl].

(** The body of [for i, trace in enumerate(analysis.reasoning_trace, 1)]. *)
Definition add_step (acc : str * nat) (trace : str) : str * nat :=
  let '(analysis_content, i) := acc in
  (analysis_content ++ [nl] ++ lit "### Step " ++ str_of_int (Z.of_nat i)
     ++ [nl] ++ trace ++ [nl],
   S i).

Definition analysis_content (i : issue) (analysis : BugAnalysis) : str :=
  (foldl add_step (report_head i analysis, 1) (reasoning_trace analysis)).1.

Definition pr_body (i : issue) (analysis : BugAnalysis) : str :=
  [robot] ++ lit " **Automated Bug Analysis**" ++ [nl; nl]
  ++ lit "**Issue**: #" ++ str_of_int (number i) ++ lit " - " ++ title i
  ++ [nl; nl]
  ++ lit "**Root Cause**: " ++ root_cause analysis ++ [nl; nl]
  ++ lit "**Confidence**: " ++ confidence analysis ++ [nl; nl]
  ++ lit "**Analysis**: " ++ explanation analysis ++ [nl; nl]
  ++ unlines ["---"; "*Generated by Claude Code Bug Surgeon*";
              "*Review the analysis and apply fixes as appropriate*"; ""].

Definition file_call (i : issue) (analysis : BugAnalysis) : repo_call :=
  CreateFile (lit "bug-analysis-" ++ str_of_int (number i) ++ lit ".md")
    ([robot] ++ lit " Bug analysis for issue #" ++ str_of_int (number i))
    (analysis_content i analysis) (new_branch i).

Definition pr_call (i : issue) (analysis : BugAnalysis) : repo_call :=
  CreatePullRequest ([wrench] ++ lit " Bug Analysis: " ++ title i)
    (pr_body i analysis) (new_branch i) (lit "main").

(** [create_analysis_pr]: what it returns, and the calls that it has made
    on the repository, in their order. *)
Definition create_analysis_pr (repo : option repository) (i : issue)
  (analysis : BugAnalysis) : option str * list repo_call :=
  match repo with
  | None => (None, [])
  | Some r =>
      let get := GetGitRef (lit "heads/main") in
      match r get with
      | Raise _ => (None, [get])
      | Ok sha =>
          let branch := CreateGitRef (lit "refs/heads/" ++ new_branch i) sha in
          let go_on :=
            (* the file is committed in a [try] of its own: what the call
               does is logged at most *)
            let calls := [get; branch; file_call i analysis;
                          pr_call i analysis] in
            match r (pr_call i analysis) with
            | Ok html_url => (Some html_url, calls)
            | Raise _ => (None, calls)
            end in
          match r branch with
          | Ok _ => go_on
          | Raise e =>
              if contains (lit "already exists") e then go_on
              else (None, [get; branch])
          end
      end
  end.

End Publish.
Import Publish.

(** ** More vocabulary, for the properties beyond the claims *)

Module Shape.

(** Every assistant turn is directly followed by a user turn. *)
Fixpoint turns_ok (conversation : list message) : bool :=
  match conversation with
  | [] => true
  | m :: rest =>
      match msg_role m with
      | user => turns_ok rest
      | assistant =>
          match rest with
          | m' :: _ =>
              match msg_role m' with user => turns_ok rest | assistant => false end
          | [] => false
          end
      end
  end.

(** A conversation that a model call can take: it begins with a user turn,
    and every assistant turn is directly followed by a user turn, so that it
    ends with a user turn. *)
Definition conversation_ok (conversation : list message) : bool :=
  match conversation with
  | m :: _ =>
      match msg_role m with user => turns_ok conversation | assistant => false end
  | [] => false
  end.

(** The text before the first period, all of it when there is none. *)
Definition first_sentence (response_text : str) : str :=
  match find response_text [period] with
  | Some i => take i response_text
  | None => response_text
  end.

(** [s[:n] + "..." if len(s) > n else s] *)
Definition truncated (n : nat) (s : str) : str :=
  if decide (n < length s) then take n s ++ lit "..." else s.



(** A turn of the ReAct loop that does not conclude: the provider raises,
    or its reply holds a tool request. *)
Definition inconclusive (r : response) : Prop :=
  match r with
  | ProviderError _ => True
  | Reply response_text => parse_tool_requests response_text ≠ []
  end.

(** The states that the loop of an invocation passes through. *)
Inductive reachable (env : environment) (claude : provider)
  (issue_description : str) : state → Prop :=
  | reach_start : reachable env claude issue_description
                    (initial_state issue_description)
  | reach_turn st st' :
      reachable env claude issue_description st →
      react_iteration env claude st = Continue st' →
      reachable env claude issue_description st'.

(** The set of requested files holds the fetched paths and no other, and
    each of them has its file turn in the conversation. *)
Definition delivered (env : environment) (conversation : list message)
  (requested : gset str) (fetched : list str) : Prop :=
  (∀ path, path ∈ requested ↔ path ∈ fetched)
  ∧ ∀ path, path ∈ fetched →
      ∃ first last,
        file_turn path (read_file_content env path first last) ∈ conversation.

(** No white space at either end. *)
Definition trimmed (s : str) : Prop :=
  (∀ c, head s = Some c → isspace c = false)
  ∧ (∀ c, last s = Some c → isspace c = false).

End Shape.
Import Shape.

(** * Properties *)

(** ** Strings *)

Section Strings.

Implicit Types s p t : str.

Lemma startswith_drop s p :
  startswith s p = true → s = p ++ drop (length p) s.
Proof.
  revert s. induction p as [|a p IH]; intros [|b s]; simpl; try done.
  intros [Hab Hs]%andb_true_iff. apply N.eqb_eq in Hab as ->.
  f_equal. by apply IH.
Qed.

Lemma startswith_app s p : startswith (p ++ s) p = true.
Proof.
  induction p as [|a p IH]; simpl; [done|].
  by rewrite N.eqb_refl.
Qed.

(** Two prefixes of one string: one is a prefix of the other. *)
Lemma startswith_both s p q :
  startswith s p = true → startswith s q = true →
  startswith p q = true ∨ startswith q p = true.
Proof.
  revert p q. induction s as [|c s IH]; intros [|a p] [|b q]; simpl;
    try done; auto.
  intros [Ha Hp]%andb_true_iff [Hb Hq]%andb_true_iff.
  apply N.eqb_eq in Ha as ->. apply N.eqb_eq in Hb as ->.
  rewrite N.eqb_refl. simpl. by apply IH.
Qed.

Lemma split1_first_colon (a b : str) :
  colon ∉ a → split1 colon (a ++ colon :: b) = [a; b].
Proof.
  induction a as [|c a IH]; simpl; intros Hin.
  - done.
  - apply not_elem_of_cons in Hin as [Hc Ha].
    destruct (N.eqb_spec c colon) as [->|_]; [done|].
    by rewrite IH.
Qed.

Lemma is_label_inv label :
  is_label label = true →
  ∃ body, label = body ++ [colon] ∧ colon ∉ body.
Proof.
  unfold is_label. destruct (rev label) as [|c body] eqn:Hrev; [done|].
  intros [Hc Hbody]%andb_true_iff. apply N.eqb_eq in Hc as ->.
  exists (rev body). split.
  - rewrite <- (rev_involutive label), Hrev. simpl. done.
  - rewrite forallb_forall in Hbody. intros Hin.
    apply list_elem_of_In in Hin. rewrite <- in_rev in Hin.
    apply Hbody in Hin.
    by rewrite N.eqb_refl in Hin.
Qed.

(** On a line that begins with a label, [split(':', 1)[1]] does not raise
    and is the text behind the label. *)
Lemma after_colon_labelled label line :
  is_label label = true → startswith line label = true →
  after_colon line = Some (strip (drop (length label) line)).
Proof.
  intros (body & -> & Hbody)%is_label_inv Hstart.
  apply startswith_drop in Hstart.
  unfold after_colon. rewrite Hstart at 1.
  rewrite <- app_assoc. simpl.
  by rewrite split1_first_colon.
Qed.

Lemma last_value_cons label raw lines :
  last_value label (raw :: lines) =
    match last_value label lines with
    | Some v => Some v
    | None => if labelled label raw then Some (value_of label raw) else None
    end.
Proof.
  unfold last_value, field_values. simpl.
  destruct (labelled label raw); [|by destruct (last _)].
  rewrite fmap_cons, last_cons. done.
Qed.

Lemma last_int_cons label raw lines :
  last_int label (raw :: lines) =
    match last_int label lines with
    | Some n => Some n
    | None => if labelled label raw then py_int (value_of label raw) else None
    end.
Proof.
  unfold last_int, field_values. simpl.
  destruct (labelled label raw); [|by destruct (last _)].
  rewrite fmap_cons. simpl.
  destruct (py_int (value_of label raw)); simpl.
  - by rewrite last_cons.
  - by destruct (last _).
Qed.

Lemma truthy_nonempty s : truthy s = true ↔ s ≠ [].
Proof. by destruct s. Qed.

(** [find] returns a place where the pattern is. *)
Lemma find_Some s p i :
  find s p = Some i → s = take i s ++ p ++ drop (i + length p) s.
Proof.
  revert i. induction s as [|c s IH]; intros i; simpl.
  - destruct (startswith [] p) eqn:Hp; [|done].
    intros [= <-]. by apply startswith_drop in Hp.
  - destruct (startswith (c :: s) p) eqn:Hp.
    + intros [= <-]. by apply startswith_drop in Hp.
    + destruct (find s p) as [j|] eqn:Hj; [|done].
      intros [= <-]. simpl. f_equal. by apply IH.
Qed.

(** [find] finds the pattern wherever there is one. *)
Lemma find_app pre p post :
  ∃ i, find (pre ++ p ++ post) p = Some i ∧ i ≤ length pre.
Proof.
  induction pre as [|c pre (i & Hi & Hle)].
  - exists 0. split; [|done]. simpl.
    destruct (p ++ post) eqn:Heq; simpl; rewrite <- Heq, startswith_app; done.
  - simpl. destruct (startswith _ p).
    + exists 0. split; [done|lia].
    + exists (S i). rewrite Hi. split; [done|lia].
Qed.

(** A reply has a match of [opn(.*?)cls] exactly when it holds [opn] and,
    somewhere behind it, [cls]; the group is between the two. *)
Lemma re_search_group_sound opn cls s group :
  re_search_group opn cls s = Some group →
  ∃ pre post, s = pre ++ opn ++ group ++ cls ++ post.
Proof.
  unfold re_search_group.
  destruct (find s opn) as [i|] eqn:Hi; [simpl|done].
  destruct (find (drop (i + length opn) s) cls) as [j|] eqn:Hj; [simpl|done].
  intros [= <-]. apply find_Some in Hi, Hj.
  eexists (take i s), _. rewrite Hi at 1. do 2 f_equal. exact Hj.
Qed.

Lemma re_search_group_complete opn cls pre mid post :
  is_Some (re_search_group opn cls (pre ++ opn ++ mid ++ cls ++ post)).
Proof.
  unfold re_search_group.
  destruct (find_app pre opn (mid ++ cls ++ post)) as (i & -> & Hi). simpl.
  replace (pre ++ opn ++ mid ++ cls ++ post)
    with ((pre ++ opn ++ mid) ++ cls ++ post) by by rewrite <- !app_assoc.
  rewrite drop_app_le by (rewrite !length_app; lia).
  destruct (find_app (drop (i + length opn) (pre ++ opn ++ mid)) cls post)
    as (j & -> & _).
  by eexists.
Qed.

Example int_examples :
  py_int (lit "10") = Some 10%Z ∧ py_int (lit "1_0") = Some 10%Z
  ∧ py_int (lit "-5") = Some (-5)%Z ∧ py_int (lit "30 (optional)") = None
  ∧ py_int (lit "") = None ∧ py_int (lit "1__0") = None
  ∧ py_int (lit "010") = Some 10%Z ∧ py_int [1635%N; 51%N] = Some 33%Z.
Proof. vm_compute. repeat split. Qed.

Example strip_examples :
  strip (lit "  a b  ") = lit "a b" ∧ strip (lit "   ") = []
  ∧ split nl (lit "a" ++ nl :: lit "b" ++ [nl]) = [lit "a"; lit "b"; []]
  ∧ split1 colon (lit "a:b:c") = [lit "a"; lit "b:c"]
  ∧ split1 colon (lit "abc") = [lit "abc"]
  ∧ str_of_int 0 = lit "0" ∧ str_of_int (-5) = lit "-5"
  ∧ str_of_int 1000 = lit "1000".
Proof. vm_compute. repeat split. Qed.

Example regex_examples :
  re_search_group (lit "<a>") (lit "</a>") (lit "<a>x<a>y</a>z</a>")
    = Some (lit "x<a>y")
  ∧ re_findall (lit "<t>") (lit "</t>") (lit "<t>1<t>2</t>3</t><t></t><t>4")
    = [lit "1<t>2"; []]
  ∧ slice [1; 2; 3; 4; 5] 1 3 = [2; 3]
  ∧ slice [1; 2; 3; 4; 5] (-2) 9 = [4; 5].
Proof. vm_compute. repeat split. Qed.

End Strings.

(** Two different labels of the grammars never begin the same line. *)
Ltac other_label H :=
  lazymatch goal with
  | |- labelled ?q ?raw = false =>
      destruct (labelled q raw) eqn:?Hq; [exfalso|reflexivity];
      destruct (startswith_both _ _ _ H Hq) as [?Hc|?Hc];
      vm_compute in Hc; discriminate Hc
  end.

(** From here on the literals and the tests on them stay folded. *)
Global Arguments startswith : simpl never.
Global Arguments lit : simpl never.
Global Arguments strip : simpl never.

(** ** Response parser *)

Section Response.

Local Abbreviation ROOT_CAUSE := (lit "ROOT_CAUSE:").
Local Abbreviation EXPLANATION := (lit "EXPLANATION:").
Local Abbreviation CONFIDENCE := (lit "CONFIDENCE:").

(** One line of the scan assigns the variable of the label it carries. *)
Lemma scan_line_assigns st raw :
  scan_line st raw =
    Some {| f_root_cause :=
              if labelled ROOT_CAUSE raw then value_of ROOT_CAUSE raw
              else f_root_cause st;
            f_explanation :=
              if labelled EXPLANATION raw then value_of EXPLANATION raw
              else f_explanation st;
            f_confidence :=
              if labelled CONFIDENCE raw then value_of CONFIDENCE raw
              else f_confidence st |}.
Proof.
  unfold scan_line.
  destruct (startswith (strip raw) ROOT_CAUSE) eqn:HR.
  { rewrite (after_colon_labelled ROOT_CAUSE) by done.
    assert (labelled EXPLANATION raw = false) as -> by other_label HR.
    assert (labelled CONFIDENCE raw = false) as -> by other_label HR.
    unfold labelled. by rewrite HR. }
  destruct (startswith (strip raw) EXPLANATION) eqn:HE.
  { rewrite (after_colon_labelled EXPLANATION) by done.
    assert (labelled CONFIDENCE raw = false) as -> by other_label HE.
    unfold labelled. by rewrite HR, HE. }
  destruct (startswith (strip raw) CONFIDENCE) eqn:HC.
  { rewrite (after_colon_labelled CONFIDENCE) by done.
    unfold labelled. by rewrite HR, HE, HC. }
  unfold labelled. rewrite HR, HE, HC. by destruct st.
Qed.

(** The scan never raises, and each variable ends with the value of the last
    line that carries its label. *)
Lemma scan_lines_last lines st :
  for_each scan_line lines st =
    Some {| f_root_cause :=
              default (f_root_cause st) (last_value ROOT_CAUSE lines);
            f_explanation :=
              default (f_explanation st) (last_value EXPLANATION lines);
            f_confidence :=
              default (f_confidence st) (last_value CONFIDENCE lines) |}.
Proof.
  revert st. induction lines as [|raw lines IH]; intros st.
  - by destruct st.
  - simpl. rewrite scan_line_assigns. simpl. rewrite IH. simpl.
    rewrite !last_value_cons.
    do 2 f_equal;
      repeat match goal with
             | |- context [last_value ?l lines] => destruct (last_value l lines)
             | |- context [labelled ?l raw] => destruct (labelled l raw)
             end; done.
Qed.

(** The record of the tagged path. *)
Lemma extract_analysis_tagged response_text analysis_text :
  re_search_group (lit "<analysis>") (lit "</analysis>") response_text
    = Some analysis_text →
  extract_analysis response_text =
    Some {| root_cause :=
              match last_value ROOT_CAUSE (split nl analysis_text) with
              | Some (c :: v) => c :: v
              | _ => lit "Analysis completed"
              end;
            explanation :=
              match last_value EXPLANATION (split nl analysis_text) with
              | Some (c :: v) => c :: v
              | _ => take 500 response_text ++ lit "..."
              end;
            file_changes :=
              {[ lit "solution.md" :=
                   default [] (re_search_group (lit "<solution>")
                                 (lit "</solution>") response_text) ]};
            reasoning_trace := thinking_spans response_text;
            confidence :=
              default (lit "MEDIUM")
                (last_value CONFIDENCE (split nl analysis_text)) |}.
Proof.
  intros Hblock. unfold extract_analysis, extract_analysis_try.
  rewrite Hblock, scan_lines_last. simpl.
  do 2 f_equal.
  - by destruct (last_value ROOT_CAUSE _) as [[|]|].
  - by destruct (last_value EXPLANATION _) as [[|]|].
Qed.

Lemma extract_analysis_untagged response_text :
  re_search_group (lit "<analysis>") (lit "</analysis>") response_text = None →
  extract_analysis response_text = Some (_create_fallback_analysis response_text).
Proof.
  intros Hnone. unfold extract_analysis, extract_analysis_try.
  by rewrite Hnone.
Qed.

(** [extract_analysis] returns a record on every reply, never [None]. *)
Lemma extract_analysis_total response_text :
  is_Some (extract_analysis response_text).
Proof.
  unfold extract_analysis. destruct (extract_analysis_try _); eauto.
Qed.

(** The shape of a fallback record. *)
Lemma fallback_record_shape response_text :
  let a := _create_fallback_analysis response_text in
  length (root_cause a) ≤ 203
  ∧ length (explanation a) ≤ 503
  ∧ file_changes a = {[ lit "analysis.md" := response_text ]}
  ∧ confidence a = lit "MEDIUM"
  ∧ reasoning_trace a = thinking_spans response_text.
Proof.
  simpl. repeat split.
  - destruct (split period response_text) as [|s0 ?]; [vm_compute; lia|].
    case_decide; [|lia].
    rewrite length_app, length_take. change (length (lit "...")) with 3. lia.
  - case_decide; [|lia].
    rewrite length_app, length_take. change (length (lit "...")) with 3. lia.
Qed.

(** The first sentence-like segment is the text before the first period. *)
Lemma split_head_before (sep : char) (a b : str) :
  sep ∉ a → head (split sep (a ++ sep :: b)) = Some a.
Proof.
  induction a as [|c a IH]; simpl; intros Hin.
  - by rewrite N.eqb_refl.
  - apply not_elem_of_cons in Hin as [Hc Ha].
    destruct (N.eqb_spec c sep) as [->|_]; [done|].
    specialize (IH Ha). by destruct (split sep (a ++ sep :: b)); simplify_eq/=.
Qed.

End Response.

(** ** Tool-request parser *)

Section ToolRequests.

Local Abbreviation MARKER := (lit "TOOL_REQUEST:").
Local Abbreviation FILE := (lit "FILE:").
Local Abbreviation START_LINE := (lit "START_LINE:").
Local Abbreviation END_LINE := (lit "END_LINE:").

(** One line behind a marker assigns the variable of the label it carries; a
    line number that does not read as an integer leaves its variable as it
    was. *)
Lemma scan_field_assigns st raw :
  scan_field st raw =
    Some {| w_file_path :=
              if labelled FILE raw then Some (value_of FILE raw)
              else w_file_path st;
            w_start_line :=
              match (if labelled START_LINE raw
                     then py_int (value_of START_LINE raw) else None) with
              | Some n => Some n
              | None => w_start_line st
              end;
            w_end_line :=
              match (if labelled END_LINE raw
                     then py_int (value_of END_LINE raw) else None) with
              | Some n => Some n
              | None => w_end_line st
              end |}.
Proof.
  unfold scan_field.
  destruct (startswith (strip raw) FILE) eqn:HF.
  { rewrite (after_colon_labelled FILE) by done.
    assert (labelled START_LINE raw = false) as -> by other_label HF.
    assert (labelled END_LINE raw = false) as -> by other_label HF.
    unfold labelled. by rewrite HF. }
  destruct (startswith (strip raw) START_LINE) eqn:HS.
  { rewrite (after_colon_labelled START_LINE) by done.
    assert (labelled END_LINE raw = false) as -> by other_label HS.
    unfold labelled, value_of. rewrite HF, HS. simpl.
    destruct (py_int _); [done|]. by destruct st. }
  destruct (startswith (strip raw) END_LINE) eqn:HE.
  { rewrite (after_colon_labelled END_LINE) by done.
    unfold labelled, value_of. rewrite HF, HS, HE. simpl.
    destruct (py_int _); [done|]. by destruct st. }
  unfold labelled. rewrite HF, HS, HE. by destruct st.
Qed.

(** The scan behind a marker never raises; the path is the value of the last
    [FILE:] line, a line number the last one that reads as an integer. *)
Lemma scan_fields_last next st :
  for_each scan_field next st =
    Some {| w_file_path :=
              match last_value FILE next with
              | Some v => Some v
              | None => w_file_path st
              end;
            w_start_line :=
              match last_int START_LINE next with
              | Some n => Some n
              | None => w_start_line st
              end;
            w_end_line :=
              match last_int END_LINE next with
              | Some n => Some n
              | None => w_end_line st
              end |}.
Proof.
  revert st. induction next as [|raw next IH]; intros st.
  - by destruct st.
  - simpl. rewrite scan_field_assigns. simpl. rewrite IH. simpl.
    rewrite last_value_cons, !last_int_cons.
    do 2 f_equal;
      repeat match goal with
             | |- context [last_value ?l next] => destruct (last_value l next)
             | |- context [last_int ?l next] => destruct (last_int l next)
             | |- context [labelled ?l raw] => destruct (labelled l raw)
             | |- context [py_int ?v] => destruct (py_int v)
             end; done.
Qed.

(** The lines that the inner loop visits are the next four, or as many as
    the reply has. *)
Lemma window_next4 lines i :
  window lines i = take 4 (drop (S i) lines).
Proof.
  unfold window. apply list_eq. intros k.
  rewrite list_lookup_fmap.
  destruct (decide (k < min (i + 5) (length lines) - (i + 1))) as [Hk|Hk].
  - rewrite lookup_seq_lt by done. simpl.
    rewrite lookup_take_lt, lookup_drop by lia.
    replace (S i + k) with (i + 1 + k) by lia.
    destruct (lookup_lt_is_Some_2 lines (i + 1 + k)) as [x ->]; [lia|done].
  - rewrite lookup_seq_ge by lia. simpl. symmetry.
    destruct (decide (4 ≤ k)); [by apply lookup_take_ge|].
    rewrite lookup_take_lt, lookup_drop by lia.
    apply lookup_ge_None_2. lia.
Qed.

(** At every line, the loop appends the request of the specification, if
    there is one. *)
Lemma request_at_spec lines i :
  i < length lines →
  request_at lines i = option_list (spec_request_at lines i).
Proof.
  intros Hi. unfold request_at, spec_request_at.
  destruct (lookup_lt_is_Some_2 lines i Hi) as [raw ->]. simpl.
  fold (labelled MARKER raw).
  destruct (labelled MARKER raw) eqn:Hmarker; [|done].
  rewrite (after_colon_labelled MARKER) by done.
  rewrite scan_fields_last, window_next4. simpl.
  destruct (last_value FILE _) as [path|]; simpl; [|done].
  destruct (truthy path); [|done].
  by destruct (last_int START_LINE _), (last_int END_LINE _).
Qed.

Lemma flat_map_option_list {A B} (f : A → list B) (g : A → option B) l :
  (∀ x, x ∈ l → f x = option_list (g x)) → flat_map f l = omap g l.
Proof.
  induction l as [|x l IH]; intros Hfg; [done|].
  simpl. rewrite Hfg, IH by set_solver.
  by destruct (g x).
Qed.

(** The parser computes the requests of the specification. *)
Lemma parse_tool_requests_spec response_text :
  parse_tool_requests response_text = spec_parse_tool_requests response_text.
Proof.
  unfold parse_tool_requests, spec_parse_tool_requests.
  apply flat_map_option_list. intros i Hi%elem_of_seq.
  apply request_at_spec. lia.
Qed.

(** Every request of the parser names a file. *)
Lemma parse_tool_requests_path response_text r :
  r ∈ parse_tool_requests response_text →
  ∃ path, file_path r = Some path ∧ path ≠ [].
Proof.
  rewrite parse_tool_requests_spec. unfold spec_parse_tool_requests.
  intros (i & _ & Hr)%list_elem_of_omap.
  unfold spec_request_at in Hr.
  destruct (_ !! i) as [raw|]; simplify_eq/=.
  destruct (labelled MARKER raw); simplify_eq/=.
  destruct (last_value FILE _) as [path|]; simplify_eq/=.
  destruct (truthy path) eqn:Hp; simplify_eq/=.
  exists path. split; [done|]. by apply truthy_nonempty.
Qed.

End ToolRequests.

(** ** The claims on the two parsers *)

Section ParserClaims.

Local Abbreviation ROOT_CAUSE := (lit "ROOT_CAUSE:").
Local Abbreviation EXPLANATION := (lit "EXPLANATION:").
Local Abbreviation CONFIDENCE := (lit "CONFIDENCE:").
Local Abbreviation MARKER := (lit "TOOL_REQUEST:").
Local Abbreviation FILE := (lit "FILE:").

Lemma last_value_none label lines :
  existsb (labelled label) lines = false → last_value label lines = None.
Proof.
  induction lines as [|raw lines IH]; [done|].
  simpl. intros [Hraw Hlines]%orb_false_iff.
  by rewrite last_value_cons, IH, Hraw.
Qed.

(** C4, as stated, fails: a [ROOT_CAUSE:] line with nothing behind the colon
    is in the block, and the root cause of the record is not that empty
    text. *)
Lemma extract_analysis_empty_root_cause :
  let response_text :=
    unlines ["<analysis>"; "ROOT_CAUSE:"; "EXPLANATION: the guard is missing";
             "CONFIDENCE: HIGH"; "</analysis>"] in
  ∃ analysis_text a,
    re_search_group (lit "<analysis>") (lit "</analysis>") response_text
      = Some analysis_text
    ∧ extract_analysis response_text = Some a
    ∧ last_value ROOT_CAUSE (split nl analysis_text) = Some []
    ∧ root_cause a = lit "Analysis completed"
    ∧ root_cause a ≠ [].
Proof.
  do 2 eexists. repeat split; try (vm_compute; reflexivity).
  vm_compute. discriminate.
Qed.

(** C4 (amended): on a reply with an analysis block, the confidence of the
    record is the trimmed text after the colon of the last [CONFIDENCE:]
    line of the block, and [MEDIUM] when the block has no such line; the
    root cause and the explanation are the trimmed text after the colon of
    the last [ROOT_CAUSE:] and [EXPLANATION:] line, when that text is not
    empty. *)
Theorem extract_analysis_fields (response_text analysis_text : str) :
  re_search_group (lit "<analysis>") (lit "</analysis>") response_text
    = Some analysis_text →
  ∃ a, extract_analysis response_text = Some a
    ∧ confidence a =
        default (lit "MEDIUM") (last_value CONFIDENCE (split nl analysis_text))
    ∧ (∀ v, last_value ROOT_CAUSE (split nl analysis_text) = Some v →
            v ≠ [] → root_cause a = v)
    ∧ (∀ v, last_value EXPLANATION (split nl analysis_text) = Some v →
            v ≠ [] → explanation a = v).
Proof.
  intros Hblock. eexists. split; [by apply extract_analysis_tagged|].
  simpl. split; [done|].
  split; intros [|c v] -> Hv; done.
Qed.

(** The amended C4 on a reply that repeats a label. *)
Lemma extract_analysis_fields_witness :
  let analysis_text :=
    nl :: unlines ["ROOT_CAUSE: first guess";
                   "  ROOT_CAUSE:  get_user returns None ";
                   "EXPLANATION: user.id is read without a check";
                   "CONFIDENCE: HIGH"; ""] in
  let response_text :=
    unlines ["I have read the file."; "<analysis>"] ++ analysis_text
    ++ lit "</analysis>" in
  re_search_group (lit "<analysis>") (lit "</analysis>") response_text
    = Some analysis_text
  ∧ ∃ a, extract_analysis response_text = Some a
    ∧ confidence a = lit "HIGH"
    ∧ root_cause a = lit "get_user returns None"
    ∧ explanation a = lit "user.id is read without a check".
Proof.
  intros analysis_text response_text.
  assert (re_search_group (lit "<analysis>") (lit "</analysis>") response_text
            = Some analysis_text) as Hblock by (vm_compute; reflexivity).
  split; [exact Hblock|].
  destruct (extract_analysis_fields response_text analysis_text Hblock)
    as (a & Ha & Hconf & Hroot & Hexpl).
  exists a. split; [exact Ha|]. split; [|split].
  - rewrite Hconf. vm_compute. reflexivity.
  - apply Hroot; vm_compute; [reflexivity|discriminate].
  - apply Hexpl; vm_compute; [reflexivity|discriminate].
Defined.

(** C10: on a reply with an analysis block, a root cause that the block
    does not give, or gives empty, is [Analysis completed]; an explanation
    that it does not give, or gives empty, is the first 500 characters of
    the whole reply followed by three dots, whatever the length of the
    reply. *)
Theorem extract_analysis_defaults (response_text analysis_text : str) :
  re_search_group (lit "<analysis>") (lit "</analysis>") response_text
    = Some analysis_text →
  ∃ a, extract_analysis response_text = Some a
    ∧ (last_value ROOT_CAUSE (split nl analysis_text) = None
       ∨ last_value ROOT_CAUSE (split nl analysis_text) = Some [] →
       root_cause a = lit "Analysis completed")
    ∧ (last_value EXPLANATION (split nl analysis_text) = None
       ∨ last_value EXPLANATION (split nl analysis_text) = Some [] →
       explanation a = take 500 response_text ++ lit "...").
Proof.
  intros Hblock. eexists. split; [by apply extract_analysis_tagged|].
  simpl. split; intros [-> | ->]; done.
Qed.

(** C10 on a reply much shorter than 500 characters. *)
Lemma extract_analysis_defaults_witness :
  let analysis_text := nl :: unlines ["EXPLANATION:"; "CONFIDENCE: LOW"; ""] in
  let response_text := lit "<analysis>" ++ analysis_text ++ lit "</analysis>" in
  re_search_group (lit "<analysis>") (lit "</analysis>") response_text
    = Some analysis_text
  ∧ ∃ a, extract_analysis response_text = Some a
    ∧ root_cause a = lit "Analysis completed"
    ∧ explanation a = response_text ++ lit "...".
Proof.
  intros analysis_text response_text.
  assert (re_search_group (lit "<analysis>") (lit "</analysis>") response_text
            = Some analysis_text) as Hblock by (vm_compute; reflexivity).
  split; [exact Hblock|].
  destruct (extract_analysis_defaults response_text analysis_text Hblock)
    as (a & Ha & Hroot & Hexpl).
  exists a. split; [exact Ha|]. split.
  - apply Hroot. left. vm_compute. reflexivity.
  - rewrite Hexpl; [reflexivity|]. right. vm_compute. reflexivity.
Defined.

(** C5: the reply below has no analysis block and begins with a period; the
    root cause of its fallback record is empty. *)
Theorem fallback_root_cause_empty :
  let response_text :=
    lit ".env is read after the client is created. Load it first." in
  re_search_group (lit "<analysis>") (lit "</analysis>") response_text = None
  ∧ extract_analysis response_text
      = Some (_create_fallback_analysis response_text)
  ∧ root_cause (_create_fallback_analysis response_text) = [].
Proof. repeat split. Qed.

(** C6, as stated, fails: the marker below has a [FILE:] line behind it, and
    the parser emits no request for it. *)
Lemma parse_tool_requests_empty_file_value :
  let response_text := unlines ["TOOL_REQUEST: read_file"; "FILE:"] in
  markers_with_file_line response_text = [0]
  ∧ parse_tool_requests response_text = [].
Proof. split; vm_compute; reflexivity. Qed.

(** C6 (amended): the parser emits one request per [TOOL_REQUEST:] marker
    line whose last [FILE:] line among the next four has a value that is not
    empty, in the order of the markers; tool and path are the trimmed text
    after the first colon, a line number is the last value of its label that
    reads as an integer and is unset when there is none.  A marker with no
    [FILE:] line among the next four yields no request, a line number that
    does not read as an integer does not drop the request, and the reply of
    the specification yields its one request. *)
Theorem parse_tool_requests_resolvable_markers :
  (∀ response_text,
     parse_tool_requests response_text = spec_parse_tool_requests response_text)
  ∧ (∀ lines i,
       existsb (labelled FILE) (take 4 (drop (S i) lines)) = false →
       request_at lines i = [])
  ∧ parse_tool_requests
      (unlines ["TOOL_REQUEST: read_file"; "FILE: a.py";
                "START_LINE: 30 (optional)"; "END_LINE: 50"])
    = [ {| tool := lit "read_file"; file_path := Some (lit "a.py");
           start_line := None; end_line := Some 50%Z |} ]
  ∧ parse_tool_requests
      (unlines ["TOOL_REQUEST: read_file"; "FILE: a.py"; "START_LINE: 10";
                "END_LINE: 20"; ""])
    = [ {| tool := lit "read_file"; file_path := Some (lit "a.py");
           start_line := Some 10%Z; end_line := Some 20%Z |} ].
Proof.
  split; [exact parse_tool_requests_spec|].
  split; [|split; vm_compute; reflexivity].
  intros lines i Hnone.
  destruct (decide (i < length lines)) as [Hi|Hi].
  - rewrite request_at_spec by done. unfold spec_request_at.
    destruct (lines !! i) as [raw|]; [simpl|done].
    destruct (labelled MARKER raw); [|done].
    by rewrite last_value_none.
  - unfold request_at. by rewrite lookup_ge_None_2 by lia.
Qed.

(** The amended C6 on a marker without a path, and on two markers that
    share one [FILE:] line. *)
Lemma parse_tool_requests_resolvable_markers_witness :
  let response_text :=
    unlines ["TOOL_REQUEST: read_file"; "I will look at it."; "TOOL_REQUEST: grep";
             "FILE: b.py"] in
  existsb (labelled FILE)
    (take 4 (drop 1 [lit "TOOL_REQUEST: read_file"; lit "START_LINE: 3"]))
    = false
  ∧ request_at [lit "TOOL_REQUEST: read_file"; lit "START_LINE: 3"] 0 = []
  ∧ parse_tool_requests response_text
    = [ {| tool := lit "read_file"; file_path := Some (lit "b.py");
           start_line := None; end_line := None |};
        {| tool := lit "grep"; file_path := Some (lit "b.py");
           start_line := None; end_line := None |} ].
Proof.
  intros response_text.
  destruct parse_tool_requests_resolvable_markers as (Hspec & Hnone & _).
  split; [vm_compute; reflexivity|]. split.
  - apply Hnone. vm_compute. reflexivity.
  - rewrite Hspec. vm_compute. reflexivity.
Defined.

End ParserClaims.

(** ** Content fetcher *)

Section FetcherClaims.

(** A slice by line numbers that count from 1 takes the lines between them. *)
Lemma slice_lines_between (lines : list str) (first last : Z) :
  (1 ≤ first)%Z → (0 ≤ last)%Z →
  slice lines (first - 1) last
    = lines_between lines (Z.to_nat first) (Z.to_nat last).
Proof.
  intros Hfirst Hlast. unfold slice, slice_index, lines_between.
  destruct (Z.ltb_spec (first - 1) 0) as [?|_]; [lia|].
  destruct (Z.ltb_spec last 0) as [?|_]; [lia|].
  destruct (decide (length lines ≤ Z.to_nat first - 1)) as [Hout|Hin].
  - by rewrite !(drop_ge lines), !take_nil by lia.
  - replace (Z.to_nat (Z.of_nat (length lines) `min` (0 `max` (first - 1))))
      with (Z.to_nat first - 1) by lia.
    destruct (decide (Z.to_nat last ≤ length lines)) as [Hl|Hl].
    + f_equal. lia.
    + by rewrite !take_ge by (rewrite length_drop; lia).
Qed.

(** The lines between [first] and [last] are those with these numbers. *)
Lemma lines_between_lookup (lines : list str) (first last k : nat) :
  1 ≤ first → first ≤ k → k ≤ last →
  lines_between lines first last !! (k - first) = lines !! (k - 1).
Proof.
  intros Hfirst Hk Hlast. unfold lines_between.
  rewrite lookup_take_lt, lookup_drop by lia. f_equal. lia.
Qed.

(** C8: [read_file_content] returns a string in every case.  When the file
    is not found or the provider raises, it is a sentinel; when the provider
    returns the text and no range is asked for, it is the text behind a
    header with the name of the file; with a range of line numbers that
    count from 1, it is the lines from the first to the last of the range,
    both included, a bound that is not given being the first or the last
    line of the file, behind a header with the name and the range. *)
Theorem read_file_content_contract (env : environment) (file_path : str)
  (start_line end_line : option Z) :
  (∀ n, start_line = Some n → 1 ≤ n)%Z →
  (∀ n, end_line = Some n → 1 ≤ n)%Z →
  match provide env file_path with
  | None =>
      read_file_content env file_path start_line end_line
        = lit "File not found: " ++ file_path
  | Some (Raise e) =>
      read_file_content env file_path start_line end_line
        = lit "Error reading file: " ++ e
  | Some (Ok content) =>
      match start_line, end_line with
      | None, None =>
          read_file_content env file_path start_line end_line
            = lit "# " ++ file_path ++ [nl] ++ content
      | _, _ =>
          let lines := split nl content in
          let first := default 1%Z start_line in
          let last := default (Z.of_nat (length lines)) end_line in
          read_file_content env file_path start_line end_line
            = lit "# " ++ file_path ++ lit " lines " ++ str_of_int first
              ++ lit "-" ++ str_of_int last ++ [nl]
              ++ join [nl] (lines_between lines (Z.to_nat first) (Z.to_nat last))
          ∧ ∀ k, Z.to_nat first ≤ k → k ≤ Z.to_nat last →
              lines_between lines (Z.to_nat first) (Z.to_nat last)
                !! (k - Z.to_nat first) = lines !! (k - 1)
      end
  end.
Proof.
  intros Hstart Hend.
  assert (∀ content,
    match start_line, end_line with
    | None, None =>
        frame file_path start_line end_line content
          = lit "# " ++ file_path ++ [nl] ++ content
    | _, _ =>
        let lines := split nl content in
        let first := default 1%Z start_line in
        let last := default (Z.of_nat (length lines)) end_line in
        frame file_path start_line end_line content
          = lit "# " ++ file_path ++ lit " lines " ++ str_of_int first
            ++ lit "-" ++ str_of_int last ++ [nl]
            ++ join [nl] (lines_between lines (Z.to_nat first) (Z.to_nat last))
        ∧ ∀ k, Z.to_nat first ≤ k → k ≤ Z.to_nat last →
            lines_between lines (Z.to_nat first) (Z.to_nat last)
              !! (k - Z.to_nat first) = lines !! (k - 1)
    end) as Hframe.
  { intros content. unfold frame.
    destruct start_line as [n|], end_line as [m|]; [| | |done];
      try (specialize (Hstart n eq_refl));
      try (specialize (Hend m eq_refl)); simpl;
      repeat match goal with
             | |- context [(?z =? 0)%Z] =>
                 destruct (Z.eqb_spec z 0) as [?|_]; [lia|]
             end; simpl;
      (split; [|intros k ? ?; apply lines_between_lookup; lia]).
    - rewrite slice_lines_between by lia.
      by replace (n - 1 + 1)%Z with n by lia.
    - rewrite slice_lines_between by lia.
      by replace (n - 1 + 1)%Z with n by lia.
    - by rewrite <- (slice_lines_between _ 1 m) by lia. }
  unfold provide, read_file_content.
  destruct (repo env) as [get_contents|].
  - destruct (get_contents file_path); [apply Hframe|done].
  - destruct (local_fs env file_path) as [|[content|e]];
      [done|apply Hframe|done].
Qed.

(** C8 on lines 2 to 3 of a local file. *)
Lemma read_file_content_contract_witness :
  let env :=
    {| repo := None;
       local_fs := λ path,
         if bool_decide (path = lit "a.py")
         then Present (Ok (unlines ["import os"; "def f():"; "    return 1"; ""]))
         else Missing |} in
  (∀ n, Some 2%Z = Some n → 1 ≤ n)%Z
  ∧ (∀ n, Some 3%Z = Some n → 1 ≤ n)%Z
  ∧ read_file_content env (lit "a.py") (Some 2%Z) (Some 3%Z)
    = unlines ["# a.py lines 2-3"; "def f():"; "    return 1"].
Proof.
  intros env.
  assert (∀ n, Some 2%Z = Some n → 1 ≤ n)%Z as H2 by (intros n [= <-]; lia).
  assert (∀ n, Some 3%Z = Some n → 1 ≤ n)%Z as H3 by (intros n [= <-]; lia).
  split; [exact H2|]. split; [exact H3|].
  pose proof (read_file_content_contract env (lit "a.py") _ _ H2 H3) as H.
  change (provide env (lit "a.py")) with
    (Some (Ok (unlines ["import os"; "def f():"; "    return 1"; ""]))) in H.
  destruct H as [-> _]. vm_compute. reflexivity.
Defined.

End FetcherClaims.

(** ** Direct analysis path *)

(** C7: in local mode, a path that does not exist is read as the sentinel
    [File not found: ...]; the direct path puts it into the prompt as a
    fenced block and logs no warning.  A file that is read, and whose text
    holds the words of the other sentinel, is left out. *)
Theorem direct_prompt_keeps_not_found :
  let env := {| repo := None; local_fs := λ _, Missing |} in
  let env' :=
    {| repo := None;
       local_fs := λ _, Present (Ok (lit "# logs Error reading file on failure")) |} in
  let issue := lit "Crash in login" in
  read_file_content env (lit "missing.py") None None
    = lit "File not found: missing.py"
  ∧ (direct_prompt env issue (Some [lit "missing.py"])).1
    = prompt_head issue
      ++ unlines [""; ""; "Relevant file contents:"; "";
                  "```python"; "File not found: missing.py"; "```"; ""]
      ++ prompt_tail
  ∧ (direct_prompt env issue (Some [lit "missing.py"])).2
    = [(INFO, lit "Starting direct bug analysis...");
       (INFO, lit "Added content for missing.py")]
  ∧ (direct_prompt env' issue (Some [lit "notes.py"])).1
    = prompt_head issue ++ unlines [""; ""; "Relevant file contents:"; ""]
      ++ prompt_tail
  ∧ (direct_prompt env' issue (Some [lit "notes.py"])).2
    = [(INFO, lit "Starting direct bug analysis...");
       (WARNING, lit "Could not read notes.py")].
Proof. repeat split; vm_compute; reflexivity. Qed.

(** The direct path gives no result exactly when the provider fails. *)
Lemma analyze_bug_direct_result (env : environment) (claude : provider)
  (issue_description : str) (file_paths : option (list str)) :
  analyze_bug_direct env claude issue_description file_paths = None
  ↔ ∃ e, claude 0 [ {| msg_role := user;
                       content := (direct_prompt env issue_description
                                     file_paths).1 |} ]
         = ProviderError e.
Proof.
  unfold analyze_bug_direct.
  destruct (claude 0 _) as [response_text|e].
  - destruct (extract_analysis response_text); split; try done;
      by intros [? ?].
  - split; [by exists e|done].
Qed.

(** ** ReAct analysis path *)

Section ReActLoop.

Variable env : environment.
Variable claude : provider.

Lemma process_request_skip (b : batch) (r : ToolRequest) :
  ¬ yields_new_file (b_requested_files b) r → process_request env b r = b.
Proof.
  intros Hnew. unfold process_request.
  destruct (bool_decide_reflect (tool r = lit "read_file")) as [Htool|]; [|done].
  destruct (file_path r) as [path|] eqn:Hpath; [|done]. simpl.
  destruct (truthy path) eqn:Htruthy; [|done]. simpl.
  destruct (bool_decide_reflect (path ∉ b_requested_files b)) as [Hfresh|]; [|done].
  destruct Hnew. split; [done|]. exists path.
  by rewrite <- truthy_nonempty.
Qed.

Lemma process_request_fetched_once (b : batch) (r : ToolRequest) :
  fetched_once (b_fetched b) (b_requested_files b) →
  fetched_once (b_fetched (process_request env b r))
    (b_requested_files (process_request env b r)).
Proof.
  intros [Hnodup Hsub]. unfold process_request.
  destruct (_ && _); [|done].
  destruct (bool_decide_reflect (default [] (file_path r) ∉ b_requested_files b))
    as [Hfresh|]; [|done].
  simpl. split.
  - apply NoDup_app. split; [done|]. split; [|apply NoDup_singleton].
    intros path Hin ->%list_elem_of_singleton. by apply Hfresh, Hsub.
  - intros path [Hin| ->%list_elem_of_singleton]%elem_of_app; set_solver.
Qed.

Lemma batch_fetched_once (rs : list ToolRequest) (b : batch) :
  fetched_once (b_fetched b) (b_requested_files b) →
  fetched_once (b_fetched (foldl (process_request env) b rs))
    (b_requested_files (foldl (process_request env) b rs)).
Proof.
  revert b. induction rs as [|r rs IH]; intros b Hb; [done|].
  simpl. by apply IH, process_request_fetched_once.
Qed.

Lemma batch_skip (rs : list ToolRequest) (b : batch) :
  Forall (λ r, ¬ yields_new_file (b_requested_files b) r) rs →
  foldl (process_request env) b rs = b.
Proof.
  induction 1 as [|r rs Hr _ IH]; [done|].
  simpl. by rewrite process_request_skip.
Qed.

(** Conversely, a request that yields a new file sets the flag, and the
    flag stays set to the end of the batch: the forcing turn is for the
    batches without a new file only. *)
Lemma process_request_cases (b : batch) (r : ToolRequest) :
  process_request env b r = b
  ∨ b_new_files_added (process_request env b r) = true.
Proof.
  unfold process_request.
  destruct (_ && _); [|by left].
  destruct (bool_decide _); [by right|by left].
Qed.

Lemma process_request_new (b : batch) (r : ToolRequest) :
  yields_new_file (b_requested_files b) r →
  b_new_files_added (process_request env b r) = true.
Proof.
  intros (Htool & path & Hpath & Hne & Hfresh). unfold process_request.
  rewrite Hpath, bool_decide_true by done. simpl.
  apply truthy_nonempty in Hne as ->. simpl.
  by rewrite bool_decide_true.
Qed.

Lemma batch_flag (rs : list ToolRequest) (b : batch) :
  b_new_files_added b = true →
  b_new_files_added (foldl (process_request env) b rs) = true.
Proof.
  revert b. induction rs as [|r rs IH]; intros b Hb; [done|].
  simpl. apply IH.
  destruct (process_request_cases b r) as [-> | ->]; done.
Qed.

Lemma batch_new_file (rs : list ToolRequest) (b : batch) :
  Exists (yields_new_file (b_requested_files b)) rs →
  b_new_files_added (foldl (process_request env) b rs) = true.
Proof.
  revert b. induction rs as [|r rs IH]; intros b Hrs.
  - by apply Exists_nil in Hrs.
  - simpl. apply Exists_cons in Hrs as [Hr|Hrs].
    + by apply batch_flag, process_request_new.
    + destruct (process_request_cases b r) as [-> | Hflag].
      * by apply IH.
      * by apply batch_flag.
Qed.

(** One turn of the loop, case by case. *)
Lemma react_iteration_error (st : state) e :
  claude (model_calls st) (messages st) = ProviderError e →
  react_iteration env claude st =
    Continue {| messages := messages st; iteration := iteration st + 1;
                trace := trace st; requested_files := requested_files st;
                fetched := fetched st; model_calls := S (model_calls st) |}.
Proof. intros Hcall. unfold react_iteration. by rewrite Hcall. Qed.

Lemma react_iteration_final (st : state) response_text :
  claude (model_calls st) (messages st) = Reply response_text →
  parse_tool_requests response_text = [] →
  ∃ a, extract_analysis response_text = Some a
    ∧ react_iteration env claude st =
        Return
          (set_reasoning_trace a
             (trace st ++ [lit "Iteration " ++ str_of_int (iteration st + 1)
                           ++ lit ": " ++ take 200 response_text ++ lit "..."]))
          {| messages := messages st; iteration := iteration st;
             trace := trace st
               ++ [lit "Iteration " ++ str_of_int (iteration st + 1)
                   ++ lit ": " ++ take 200 response_text ++ lit "..."];
             requested_files := requested_files st;
             fetched := fetched st; model_calls := S (model_calls st) |}.
Proof.
  intros Hcall Hnone.
  destruct (extract_analysis_total response_text) as [a Ha].
  exists a. split; [done|].
  unfold react_iteration. by rewrite Hcall, Hnone, Ha.
Qed.

(** A turn that goes on has counted against the budget, and it had a
    provider error or tool requests. *)
Lemma react_iteration_continue (st st' : state) :
  react_iteration env claude st = Continue st' →
  iteration st' = (iteration st + 1)%Z
  ∧ model_calls st' = S (model_calls st)
  ∧ ((∃ e, claude (model_calls st) (messages st) = ProviderError e)
     ∨ (∃ response_text,
          claude (model_calls st) (messages st) = Reply response_text
          ∧ parse_tool_requests response_text ≠ [])).
Proof.
  unfold react_iteration.
  destruct (claude _ _) as [response_text|e] eqn:Hcall.
  - destruct (parse_tool_requests response_text) as [|r rs] eqn:Hparse.
    + destruct (extract_analysis_total response_text) as [a ->]. done.
    + intros [= <-]. simpl. repeat split; [right]. exists response_text.
      by rewrite Hparse.
  - intros [= <-]. simpl. repeat split; [left]. by exists e.
Qed.

Lemma react_iteration_fetched_once (st : state) :
  fetched_once (fetched st) (requested_files st) →
  match react_iteration env claude st with
  | Return _ st' | Continue st' => fetched_once (fetched st') (requested_files st')
  end.
Proof.
  intros Hst. unfold react_iteration.
  destruct (claude _ _) as [response_text|e]; [|done].
  destruct (parse_tool_requests response_text) as [|r rs].
  - by destruct (extract_analysis response_text).
  - cbn [fetched requested_files]. by apply (batch_fetched_once (r :: rs)).
Qed.

(** The loop ends: a fuel above the budget that is left is enough. *)
Lemma react_loop_terminates (max_iterations : Z) (fuel : nat) (st : state) :
  Z.to_nat (max_iterations - iteration st) < fuel →
  is_Some (react_loop env claude max_iterations fuel st).
Proof.
  revert st. induction fuel as [|fuel IH]; intros st Hfuel; [lia|].
  simpl. destruct (Z.ltb_spec (iteration st) max_iterations) as [Hlt|]; [|done].
  destruct (react_iteration env claude st) as [a st'|st'] eqn:Hturn; [done|].
  apply react_iteration_continue in Hturn as (Hit & _).
  apply IH. lia.
Qed.

(** More fuel than needed changes nothing. *)
Lemma react_loop_fuel_mono (max_iterations : Z) (fuel fuel' : nat)
  (st : state) r :
  react_loop env claude max_iterations fuel st = Some r → fuel ≤ fuel' →
  react_loop env claude max_iterations fuel' st = Some r.
Proof.
  revert fuel' st. induction fuel as [|fuel IH]; intros fuel' st; [done|].
  destruct fuel' as [|fuel']; [lia|]. simpl.
  destruct (iteration st <? max_iterations)%Z; [|done].
  destruct (react_iteration env claude st) as [a st'|st']; [done|].
  intros Hloop Hle. apply IH; [done|lia].
Qed.

Lemma react_loop_fetched_once (max_iterations : Z) (fuel : nat)
  (st st' : state) a :
  react_loop env claude max_iterations fuel st = Some (a, st') →
  fetched_once (fetched st) (requested_files st) →
  fetched_once (fetched st') (requested_files st').
Proof.
  revert st. induction fuel as [|fuel IH]; intros st; [done|].
  simpl. destruct (iteration st <? max_iterations)%Z; [|by intros [= _ <-]].
  intros Hloop Hst. apply react_iteration_fetched_once in Hst.
  destruct (react_iteration env claude st) as [a' st''|st''].
  - by simplify_eq.
  - by apply (IH st'').
Qed.

Lemma NoDup_filter_eq (path : str) (l : list str) :
  NoDup l → length (List.filter (λ q, bool_decide (q = path)) l) ≤ 1.
Proof.
  induction 1 as [|q l Hq _ IH]; simpl; [lia|].
  destruct (bool_decide_reflect (q = path)) as [->|]; [|done].
  assert (List.filter (λ q, bool_decide (q = path)) l = []) as ->; [|simpl; lia].
  clear IH. induction l as [|q l IH]; [done|].
  apply not_elem_of_cons in Hq as [Hne Hq]. simpl.
  rewrite bool_decide_false by done. by apply IH.
Qed.

End ReActLoop.

(** ** The claims on the ReAct path *)

(** C1: an invocation of the ReAct path returns, and at its return no path
    has gone to the content fetcher more than once; a request for a path
    that is in the set of requested files changes nothing, and so fetches
    nothing. *)
Theorem react_fetches_each_path_once :
  (∀ env claude issue_description max_iterations,
     ∃ a st,
       _analyze_bug_react env claude issue_description max_iterations
         = Some (a, st)
       ∧ ∀ path, fetch_count path st ≤ 1)
  ∧ (∀ env b r path,
       file_path r = Some path → path ∈ b_requested_files b →
       process_request env b r = b).
Proof.
  split.
  - intros env claude issue_description max_iterations.
    destruct (react_loop_terminates env claude max_iterations
                (S (Z.to_nat max_iterations)) (initial_state issue_description))
      as [[a st] Hrun].
    { simpl. lia. }
    exists a, st. split; [done|].
    intros path. apply NoDup_filter_eq.
    eapply react_loop_fetched_once; [exact Hrun|].
    split; [apply NoDup_nil_2|]. simpl. by intros ? ?%not_elem_of_nil.
  - intros env b r path Hpath Hin. apply process_request_skip.
    intros (_ & path' & Hpath' & _ & Hfresh). congruence.
Qed.

(** C2: with a budget of one iteration and a model whose every reply holds a
    tool request, the ReAct path calls the model once, counts one iteration
    and returns the fallback record of the placeholder text. *)
Theorem react_budget_one (env : environment) (claude : provider)
  (issue_description : str) :
  (∀ n conversation, ∃ response_text,
     claude n conversation = Reply response_text
     ∧ parse_tool_requests response_text ≠ []) →
  ∃ st,
    _analyze_bug_react env claude issue_description 1
      = Some (_create_fallback_analysis exhausted_text, st)
    ∧ model_calls st = 1
    ∧ iteration st = 1%Z
    ∧ _create_fallback_analysis exhausted_text
      = {| root_cause := lit "Analysis attempted but max iterations reached";
           explanation := lit "Analysis attempted but max iterations reached";
           file_changes :=
             {[ lit "analysis.md" :=
                  lit "Analysis attempted but max iterations reached" ]};
           reasoning_trace := [];
           confidence := lit "MEDIUM" |}.
Proof.
  intros Hrequests.
  unfold _analyze_bug_react. change (Z.to_nat 1) with 1.
  set (st0 := initial_state issue_description).
  destruct (react_iteration env claude st0) as [a st|st] eqn:Hturn.
  - unfold react_iteration in Hturn.
    destruct (Hrequests (model_calls st0) (messages st0))
      as (response_text & Hcall & Hparse).
    rewrite Hcall in Hturn.
    by destruct (parse_tool_requests response_text).
  - apply react_iteration_continue in Hturn as Hst.
    destruct Hst as (Hit & Hcalls & _).
    exists st. unfold react_loop.
    change (iteration st0 <? 1)%Z with true. cbv iota. rewrite Hturn.
    replace (iteration st <? 1)%Z with false
      by (symmetry; apply Z.ltb_ge; rewrite Hit; done).
    done.
Qed.

(** C3: a turn of the loop whose reply holds tool requests, none of which
    is a [read_file] of a path that is not yet in the set, appends the reply
    and then the forcing instruction, and no file-content turn; it fetches
    nothing and leaves the set as it was. *)
Theorem react_forcing_turn (env : environment) (claude : provider)
  (st : state) (response_text : str) :
  claude (model_calls st) (messages st) = Reply response_text →
  parse_tool_requests response_text ≠ [] →
  Forall (λ r, ¬ yields_new_file (requested_files st) r)
    (parse_tool_requests response_text) →
  ∃ st',
    react_iteration env claude st = Continue st'
    ∧ messages st' =
        messages st
        ++ [ {| msg_role := assistant; content := response_text |};
             {| msg_role := user;
                content := lit "Please provide your final analysis now with <analysis> and <solution> blocks." |} ]
    ∧ requested_files st' = requested_files st
    ∧ fetched st' = fetched st.
Proof.
  intros Hcall Hsome Hnone. unfold react_iteration. rewrite Hcall.
  destruct (parse_tool_requests response_text) as [|r rs] eqn:Hparse; [done|].
  rewrite batch_skip by done.
  eexists. split; [done|]. simpl. by rewrite <- app_assoc.
Qed.

(** C9: [extract_analysis] yields a record on every reply.  A reply without
    tool requests ends the loop in its turn: the ReAct path returns the
    record extracted from it, with the trace, and the iteration counter at
    the return is what it was before the turn.  A turn that goes on has
    added one to the counter, and it had a provider error or a reply with
    tool requests. *)
Theorem react_final_reply_returns :
  (∀ response_text, is_Some (extract_analysis response_text))
  ∧ (∀ env claude max_iterations fuel st response_text,
       (iteration st < max_iterations)%Z →
       claude (model_calls st) (messages st) = Reply response_text →
       parse_tool_requests response_text = [] →
       ∃ a st',
         extract_analysis response_text = Some a
         ∧ react_loop env claude max_iterations (S fuel) st
           = Some (set_reasoning_trace a (trace st'), st')
         ∧ iteration st' = iteration st
         ∧ model_calls st' = S (model_calls st))
  ∧ (∀ env claude st st',
       react_iteration env claude st = Continue st' →
       iteration st' = (iteration st + 1)%Z
       ∧ ((∃ e, claude (model_calls st) (messages st) = ProviderError e)
          ∨ (∃ response_text,
               claude (model_calls st) (messages st) = Reply response_text
               ∧ parse_tool_requests response_text ≠ []))).
Proof.
  split; [exact extract_analysis_total|]. split.
  - intros env claude max_iterations fuel st response_text Hlt Hcall Hnone.
    destruct (react_iteration_final env claude st response_text Hcall Hnone)
      as (a & Ha & Hturn).
    exists a.
    lazymatch type of Hturn with _ = Return _ ?s => exists s end.
    split; [done|].
    simpl. apply Z.ltb_lt in Hlt. by rewrite Hlt, Hturn.
  - intros env claude st st' Hturn.
    apply react_iteration_continue in Hturn as (? & _ & ?). done.
Qed.

(** ** The claims at the scenario *)

Lemma a_requested : lit "a.py" ∈ requested_files Scenario.after_a.
Proof. unfold Scenario.after_a. cbn [requested_files]. set_solver. Qed.

(** C1 with a model that asks for [a.py] in every reply. *)
Lemma react_fetches_each_path_once_witness :
  (∃ a st,
     _analyze_bug_react Scenario.disk Scenario.insistent Scenario.issue 3
       = Some (a, st)
     ∧ fetch_count (lit "a.py") st ≤ 1)
  ∧ file_path Scenario.read_a = Some (lit "a.py")
  ∧ lit "a.py" ∈ requested_files Scenario.after_a
  ∧ ∀ b, b_requested_files b = requested_files Scenario.after_a →
      process_request Scenario.disk b Scenario.read_a = b.
Proof.
  destruct react_fetches_each_path_once as [Hrun Hskip].
  split; [|split; [reflexivity|split]].
  - destruct (Hrun Scenario.disk Scenario.insistent Scenario.issue 3%Z)
      as (a & st & Hreturn & Hcount).
    exists a, st. split; [exact Hreturn|apply Hcount].
  - apply a_requested.
  - intros b Hb. apply (Hskip _ _ _ (lit "a.py")); [reflexivity|].
    rewrite Hb. apply a_requested.
Defined.

(** C2 with the same model. *)
Lemma react_budget_one_witness :
  (∀ n conversation, ∃ response_text,
     Scenario.insistent n conversation = Reply response_text
     ∧ parse_tool_requests response_text ≠ [])
  ∧ ∃ st,
      _analyze_bug_react Scenario.disk Scenario.insistent Scenario.issue 1
        = Some (_create_fallback_analysis exhausted_text, st)
      ∧ model_calls st = 1
      ∧ iteration st = 1%Z.
Proof.
  assert (∀ n conversation, ∃ response_text,
            Scenario.insistent n conversation = Reply response_text
            ∧ parse_tool_requests response_text ≠ []) as Hasks.
  { intros n conversation. exists Scenario.asks_for_a.
    split; [reflexivity|]. vm_compute. discriminate. }
  split; [exact Hasks|].
  destruct (react_budget_one Scenario.disk Scenario.insistent Scenario.issue Hasks)
    as (st & Hreturn & Hcalls & Hit & _).
  exists st. split; [exact Hreturn|]. split; [exact Hcalls|exact Hit].
Defined.

(** C3 on the turn after [a.py] was fetched. *)
Lemma react_forcing_turn_witness :
  Scenario.insistent (model_calls Scenario.after_a) (messages Scenario.after_a)
    = Reply Scenario.asks_for_a
  ∧ parse_tool_requests Scenario.asks_for_a = [Scenario.read_a]
  ∧ ¬ yields_new_file (requested_files Scenario.after_a) Scenario.read_a
  ∧ ∃ st',
      react_iteration Scenario.disk Scenario.insistent Scenario.after_a
        = Continue st'
      ∧ messages st' =
          messages Scenario.after_a
          ++ [ {| msg_role := assistant; content := Scenario.asks_for_a |};
               forcing_turn ]
      ∧ fetched st' = [lit "a.py"].
Proof.
  assert (parse_tool_requests Scenario.asks_for_a = [Scenario.read_a]) as Hparse
    by (vm_compute; reflexivity).
  assert (¬ yields_new_file (requested_files Scenario.after_a) Scenario.read_a)
    as Hold.
  { intros (_ & path & Hpath & _ & Hfresh). apply Hfresh.
    injection Hpath as <-. apply a_requested. }
  split; [reflexivity|]. split; [exact Hparse|]. split; [exact Hold|].
  destruct (react_forcing_turn Scenario.disk Scenario.insistent
              Scenario.after_a Scenario.asks_for_a)
    as (st' & Hturn & Hmessages & _ & Hfetched).
  - reflexivity.
  - rewrite Hparse. discriminate.
  - rewrite Hparse. constructor; [exact Hold|constructor].
  - exists st'. split; [exact Hturn|]. split; [exact Hmessages|exact Hfetched].
Defined.

(** C9 with a model that concludes at once, and with one that fails. *)
Lemma react_final_reply_returns_witness :
  (0 < 3)%Z
  ∧ Scenario.decided 0 (messages (initial_state Scenario.issue))
    = Reply Scenario.concludes
  ∧ parse_tool_requests Scenario.concludes = []
  ∧ (∃ a st',
       _analyze_bug_react Scenario.disk Scenario.decided Scenario.issue 3
         = Some (a, st')
       ∧ root_cause a = lit "f returns None"
       ∧ iteration st' = 0%Z
       ∧ model_calls st' = 1)
  ∧ ∃ st',
      react_iteration Scenario.disk Scenario.failing
        (initial_state Scenario.issue) = Continue st'
      ∧ iteration st' = 1%Z.
Proof.
  destruct react_final_reply_returns as (_ & Hfinal & Hcontinue).
  assert (parse_tool_requests Scenario.concludes = []) as Hparse
    by (vm_compute; reflexivity).
  split; [lia|]. split; [reflexivity|]. split; [exact Hparse|]. split.
  - destruct (Hfinal Scenario.disk Scenario.decided 3%Z 3
                (initial_state Scenario.issue) Scenario.concludes)
      as (a & st' & Ha & Hreturn & Hit & Hcalls);
      [reflexivity|reflexivity|exact Hparse|].
    eexists _, st'. split; [exact Hreturn|].
    split; [|split; [exact Hit|exact Hcalls]].
    assert (root_cause <$> extract_analysis Scenario.concludes
              = Some (lit "f returns None")) as Hroot
      by (vm_compute; reflexivity).
    rewrite Ha in Hroot. injection Hroot as Hroot. exact Hroot.
  - eexists. split.
    + apply react_iteration_error with (e := lit "timeout"). reflexivity.
    + apply (Hcontinue Scenario.disk Scenario.failing
               (initial_state Scenario.issue)).
      apply react_iteration_error with (e := lit "timeout"). reflexivity.
Defined.

(** * Properties beyond the claims *)

(** ** The ReAct loop: budget, result and conversation *)

Section ReActBeyond.

Variable env : environment.
Variable claude : provider.

(** What the loop returns, from any state: the placeholder record when the
    budget is used up, or the record of a reply without tool requests; and
    how the two counters have moved. *)
Lemma react_loop_result (max_iterations : Z) (fuel : nat) (st st' : state) a :
  react_loop env claude max_iterations fuel st = Some (a, st') →
  (a = _create_fallback_analysis exhausted_text
   ∧ iteration st' = Z.max (iteration st) max_iterations
   ∧ (Z.of_nat (model_calls st') - Z.of_nat (model_calls st)
      = iteration st' - iteration st)%Z)
  ∨ ((iteration st ≤ iteration st' < max_iterations)%Z
     ∧ (Z.of_nat (model_calls st') - Z.of_nat (model_calls st)
        = iteration st' - iteration st + 1)%Z
     ∧ ∃ response_text a0,
         claude (model_calls st' - 1) (messages st') = Reply response_text
         ∧ parse_tool_requests response_text = []
         ∧ extract_analysis response_text = Some a0
         ∧ a = set_reasoning_trace a0 (trace st')
         ∧ trace st' ≠ []).
Proof.
  revert st. induction fuel as [|fuel IH]; intros st; [done|].
  simpl. destruct (Z.ltb_spec (iteration st) max_iterations) as [Hlt|Hge].
  - destruct (react_iteration env claude st) as [a' st''|st''] eqn:Hturn.
    + intros [= -> ->]. right.
      unfold react_iteration in Hturn.
      destruct (claude (model_calls st) (messages st))
        as [response_text|e] eqn:Hcall; [|done].
      destruct (parse_tool_requests response_text) eqn:Hparse; [|done].
      destruct (extract_analysis response_text) as [a0|] eqn:Ha0; [|done].
      injection Hturn as <- <-. cbn [iteration model_calls messages trace].
      split; [lia|]. split; [lia|].
      exists response_text, a0.
      replace (S (model_calls st) - 1) with (model_calls st) by lia.
      repeat split; try done.
      by intros [_ ?]%app_eq_nil.
    + intros Hloop. apply react_iteration_continue in Hturn as (Hit & Hcalls & _).
      apply IH in Hloop as [(-> & Hit' & Hcalls')|(Hit' & Hcalls' & Hfinal)].
      * left. split; [done|]. split; lia.
      * right. split; [lia|]. split; [lia|done].
  - intros [= <- <-]. left. split; [done|]. split; lia.
Qed.

(** The trace never has more entries than there were model calls. *)
Lemma react_iteration_trace (st : state) :
  length (trace st) ≤ model_calls st →
  match react_iteration env claude st with
  | Return _ st' | Continue st' => length (trace st') ≤ model_calls st'
  end.
Proof.
  intros Hst. unfold react_iteration.
  destruct (claude _ _) as [response_text|e]; [|simpl; lia].
  destruct (parse_tool_requests response_text).
  - destruct (extract_analysis response_text); simpl;
      rewrite length_app; simpl; lia.
  - simpl. rewrite length_app. simpl. lia.
Qed.

Lemma react_loop_trace (max_iterations : Z) (fuel : nat) (st st' : state) a :
  react_loop env claude max_iterations fuel st = Some (a, st') →
  length (trace st) ≤ model_calls st →
  length (trace st') ≤ model_calls st'.
Proof.
  revert st. induction fuel as [|fuel IH]; intros st; [done|].
  simpl. destruct (iteration st <? max_iterations)%Z; [|by intros [= _ <-]].
  intros Hloop Hst. apply react_iteration_trace in Hst.
  destruct (react_iteration env claude st) as [a' st''|st''].
  - by simplify_eq.
  - by apply (IH st'').
Qed.

(** The conversation: what a batch appends are user turns, at least one
    when the flag is set. *)
Lemma turns_ok_app (c1 c2 : list message) :
  turns_ok c1 = true → turns_ok c2 = true → turns_ok (c1 ++ c2) = true.
Proof.
  intros H1 H2. induction c1 as [|m c1 IH]; [done|].
  simpl in *. destruct (msg_role m).
  - by apply IH.
  - destruct c1 as [|m' c1]; [done|]. simpl in *.
    destruct (msg_role m'); [|done]. by apply IH.
Qed.

Lemma turns_ok_users (c : list message) :
  Forall (λ m, msg_role m = user) c → turns_ok c = true.
Proof. induction 1 as [|m c Hm _ IH]; [done|]. simpl. by rewrite Hm. Qed.

Lemma batch_appends_users (rs : list ToolRequest) (b : batch) :
  ∃ turns,
    b_messages (foldl (process_request env) b rs) = b_messages b ++ turns
    ∧ Forall (λ m, msg_role m = user) turns
    ∧ (b_new_files_added (foldl (process_request env) b rs) = true →
       b_new_files_added b = false → turns ≠ []).
Proof.
  revert b. induction rs as [|r rs IH]; intros b.
  - exists []. rewrite app_nil_r. repeat split; [done|]. simpl. congruence.
  - simpl. destruct (IH (process_request env b r)) as (turns & -> & Husers & Hflag).
    unfold process_request in *.
    destruct (_ && _); [|by exists turns].
    destruct (bool_decide _); [|by exists turns].
    simpl in *. eexists (_ :: turns). rewrite <- app_assoc. simpl.
    split; [done|]. split; [by constructor|done].
Qed.

Lemma conversation_ok_extend (c more : list message) :
  conversation_ok c = true → turns_ok more = true →
  conversation_ok (c ++ more) = true.
Proof.
  destruct c as [|m c]; [done|]. intros Hc Hmore.
  cbn [conversation_ok app] in *. destruct (msg_role m) eqn:Hm; [|done].
  by apply (turns_ok_app (m :: c)).
Qed.

Lemma react_iteration_conversation (st : state) :
  conversation_ok (messages st) = true →
  match react_iteration env claude st with
  | Return _ st' | Continue st' =>
      conversation_ok (messages st') = true
      ∧ messages st `prefix_of` messages st'
  end.
Proof.
  intros Hst. unfold react_iteration.
  destruct (claude _ _) as [response_text|e]; [|done].
  destruct (parse_tool_requests response_text) as [|r rs].
  - by destruct (extract_analysis response_text).
  - cbn [messages].
    destruct (batch_appends_users (r :: rs)
                {| b_messages := messages st
                     ++ [ {| msg_role := assistant; content := response_text |} ];
                   b_requested_files := requested_files st;
                   b_new_files_added := false;
                   b_fetched := fetched st |})
      as (turns & -> & Husers & Hflag).
    cbn [b_messages] in *.
    assert (∀ more, Forall (λ m, msg_role m = user) more → more ≠ [] →
              turns_ok ({| msg_role := assistant; content := response_text |}
                          :: more) = true) as Hreply.
    { intros [|m more] Hmore Hne; [done|]. cbn.
      apply Forall_cons in Hmore as [-> Hmore]. by apply turns_ok_users. }
    destruct (b_new_files_added _).
    + rewrite <- app_assoc. split; [|by eexists].
      apply conversation_ok_extend; [done|]. by apply Hreply, Hflag.
    + rewrite <- !app_assoc. split; [|by eexists].
      apply conversation_ok_extend; [done|]. apply Hreply.
      * apply Forall_app. split; [done|]. by constructor.
      * by intros [? ?]%app_eq_nil.
Qed.

Lemma delivered_app (c more : list message) requested fetched :
  delivered env c requested fetched →
  delivered env (c ++ more) requested fetched.
Proof.
  intros [Hset Hturns]. split; [done|].
  intros path (first & last & Hin)%Hturns.
  exists first, last. apply elem_of_app. by left.
Qed.

Lemma process_request_delivered (b : batch) (r : ToolRequest) :
  delivered env (b_messages b) (b_requested_files b) (b_fetched b) →
  delivered env (b_messages (process_request env b r))
    (b_requested_files (process_request env b r))
    (b_fetched (process_request env b r)).
Proof.
  intros [Hset Hturns]. unfold process_request.
  destruct (_ && _); [|done].
  destruct (bool_decide _); [|done].
  cbn [b_messages b_requested_files b_fetched]. split.
  - intros path. rewrite elem_of_union, elem_of_app, Hset.
    by rewrite elem_of_singleton, list_elem_of_singleton.
  - intros path [Hin| ->%list_elem_of_singleton]%elem_of_app.
    + destruct (Hturns path Hin) as (first & last & Hturn).
      exists first, last. apply elem_of_app. by left.
    + exists (start_line r), (end_line r).
      apply elem_of_app. right. by apply list_elem_of_singleton.
Qed.

Lemma batch_delivered (rs : list ToolRequest) (b : batch) :
  delivered env (b_messages b) (b_requested_files b) (b_fetched b) →
  delivered env (b_messages (foldl (process_request env) b rs))
    (b_requested_files (foldl (process_request env) b rs))
    (b_fetched (foldl (process_request env) b rs)).
Proof.
  revert b. induction rs as [|r rs IH]; intros b Hb; [done|].
  simpl. by apply IH, process_request_delivered.
Qed.

Lemma react_iteration_delivered (st : state) :
  delivered env (messages st) (requested_files st) (fetched st) →
  match react_iteration env claude st with
  | Return _ st' | Continue st' =>
      delivered env (messages st') (requested_files st') (fetched st')
  end.
Proof.
  intros Hst. unfold react_iteration.
  destruct (claude _ _) as [response_text|e]; [|done].
  destruct (parse_tool_requests response_text) as [|r rs].
  - by destruct (extract_analysis response_text).
  - cbn [messages requested_files fetched].
    match goal with
    | |- context [foldl _ ?b0 _] =>
        pose proof (batch_delivered (r :: rs) b0) as Hbatch
    end.
    cbn [b_messages b_requested_files b_fetched] in Hbatch.
    specialize (Hbatch (delivered_app _ _ _ _ Hst)).
    destruct (b_new_files_added _); [done|]. by apply delivered_app.
Qed.

Lemma turns_ok_last (c : list message) :
  c ≠ [] → turns_ok c = true →
  ∃ m, last c = Some m ∧ msg_role m = user.
Proof.
  induction c as [|m c IH]; [done|]. intros _ Hc.
  destruct c as [|m' c].
  - exists m. split; [done|]. cbn in Hc. by destruct (msg_role m).
  - destruct IH as (m'' & Hlast & Hrole); [done| |].
    + cbn [turns_ok] in Hc |- *.
      destruct (msg_role m); [done|]. by destruct (msg_role m').
    + exists m''. by rewrite last_cons_cons.
Qed.

(** What holds of every state that the loop passes through. *)
Lemma reachable_invariant (issue_description : str) (st : state) :
  reachable env claude issue_description st →
  conversation_ok (messages st) = true
  ∧ messages (initial_state issue_description) `prefix_of` messages st
  ∧ delivered env (messages st) (requested_files st) (fetched st)
  ∧ fetched_once (fetched st) (requested_files st).
Proof.
  induction 1 as [|st st' _ (Hok & Hprefix & Hdelivered & Honce) Hturn].
  - split; [done|]. split; [done|]. split.
    + split; [|by intros ? ?%not_elem_of_nil]. intros path.
      cbn [requested_files fetched initial_state]. set_solver.
    + split; [apply NoDup_nil_2|]. by intros ? ?%not_elem_of_nil.
  - pose proof (react_iteration_conversation st Hok) as H1.
    pose proof (react_iteration_delivered st Hdelivered) as H2.
    pose proof (react_iteration_fetched_once env claude st Honce) as H3.
    rewrite Hturn in H1, H2, H3. destruct H1 as [Hok' Hprefix'].
    split; [done|]. split; [by etrans|]. done.
Qed.

End ReActBeyond.

(** X1: the ReAct path never calls the model more often than its budget
    says, and not at all when the budget is not positive; the iteration
    counter at the return lies between 0 and the budget. *)
Theorem react_call_budget (env : environment) (claude : provider)
  (issue_description : str) (max_iterations : Z) :
  ∃ a st,
    _analyze_bug_react env claude issue_description max_iterations
      = Some (a, st)
    ∧ model_calls st ≤ Z.to_nat max_iterations
    ∧ (0 ≤ iteration st ≤ Z.max 0 max_iterations)%Z.
Proof.
  destruct (react_loop_terminates env claude max_iterations
              (S (Z.to_nat max_iterations)) (initial_state issue_description))
    as [[a st] Hrun]; [simpl; lia|].
  exists a, st. split; [done|].
  apply react_loop_result in Hrun as [(_ & Hit & Hcalls)|(Hit & Hcalls & _)];
    cbn [initial_state iteration model_calls] in *; lia.
Qed.

(** X2: when no answer of the model concludes (each one is a provider error
    or holds a tool request), the ReAct path makes exactly as many model calls
    as its budget says and returns the fallback record of the placeholder
    text. *)
Theorem react_exhausts_budget (env : environment) (claude : provider)
  (issue_description : str) (max_iterations : Z) :
  (∀ n conversation, inconclusive (claude n conversation)) →
  ∃ st,
    _analyze_bug_react env claude issue_description max_iterations
      = Some (_create_fallback_analysis exhausted_text, st)
    ∧ model_calls st = Z.to_nat max_iterations
    ∧ iteration st = Z.max 0 max_iterations.
Proof.
  intros Hnever.
  destruct (react_loop_terminates env claude max_iterations
              (S (Z.to_nat max_iterations)) (initial_state issue_description))
    as [[a st] Hrun]; [simpl; lia|].
  exists st. unfold _analyze_bug_react. rewrite Hrun.
  apply react_loop_result in Hrun
    as [(-> & Hit & Hcalls)|(_ & _ & response_text & a0 & Hcall & Hparse & _)].
  - cbn [initial_state iteration model_calls] in *.
    split; [done|]. split; lia.
  - specialize (Hnever (model_calls st - 1) (messages st)).
    rewrite Hcall in Hnever. done.
Qed.

Lemma react_exhausts_budget_witness :
  (∀ n conversation, inconclusive (Scenario.failing n conversation))
  ∧ ∃ st,
      _analyze_bug_react Scenario.disk Scenario.failing Scenario.issue 3
        = Some (_create_fallback_analysis exhausted_text, st)
      ∧ model_calls st = 3
      ∧ iteration st = 3%Z.
Proof.
  assert (∀ n conversation, inconclusive (Scenario.failing n conversation))
    as Hfails by (intros n conversation; exact I).
  split; [exact Hfails|].
  exact (react_exhausts_budget Scenario.disk Scenario.failing Scenario.issue
           3%Z Hfails).
Defined.

(** X3: what the ReAct path returns is one of two records.  Either the
    budget is used up, and it is the fallback record of the placeholder text,
    whose reasoning trace is empty: the previews gathered on the way are
    dropped.  Or the last reply has no tool requests, and it is the record
    that [extract_analysis] gives for that reply, with the previews, which
    are at least one and at most one per model call, as its reasoning
    trace. *)
Theorem react_returned_record (env : environment) (claude : provider)
  (issue_description : str) (max_iterations : Z) :
  ∃ a st,
    _analyze_bug_react env claude issue_description max_iterations
      = Some (a, st)
    ∧ ((a = _create_fallback_analysis exhausted_text
        ∧ reasoning_trace a = []
        ∧ iteration st = Z.max 0 max_iterations)
       ∨ (∃ response_text a0,
            claude (model_calls st - 1) (messages st) = Reply response_text
            ∧ parse_tool_requests response_text = []
            ∧ extract_analysis response_text = Some a0
            ∧ a = set_reasoning_trace a0 (trace st)
            ∧ 1 ≤ length (trace st) ≤ model_calls st)).
Proof.
  destruct (react_loop_terminates env claude max_iterations
              (S (Z.to_nat max_iterations)) (initial_state issue_description))
    as [[a st] Hrun]; [simpl; lia|].
  exists a, st. split; [done|].
  pose proof (react_loop_trace env claude _ _ _ _ _ Hrun) as Htrace.
  apply react_loop_result in Hrun
    as [(-> & Hit & _)
       |(_ & _ & response_text & a0 & Hcall & Hparse & Ha0 & -> & Hne)].
  - left. done.
  - right. exists response_text, a0. repeat split; try done.
    + destruct (trace st); [done|simpl; lia].
    + apply Htrace. simpl. lia.
Qed.

(** X4: at every turn of an invocation, the conversation that goes to the
    model begins with the turn of the issue, and each assistant turn in it
    is directly followed by a user turn: it never ends with an assistant
    turn. *)
Theorem react_conversation_shape (env : environment) (claude : provider)
  (issue_description : str) (st : state) :
  reachable env claude issue_description st →
  conversation_ok (messages st) = true
  ∧ messages (initial_state issue_description) `prefix_of` messages st
  ∧ ∃ m, last (messages st) = Some m ∧ msg_role m = user.
Proof.
  intros (Hok & Hprefix & _)%reachable_invariant.
  split; [done|]. split; [done|].
  apply turns_ok_last.
  - by destruct (messages st).
  - destruct (messages st) as [|m0 c]; [done|].
    cbn [conversation_ok] in Hok. by destruct (msg_role m0).
Qed.

(** After one reply that asks for [a.py] the loop has fetched it. *)
Lemma reachable_after_request :
  ∃ st,
    reachable Scenario.disk Scenario.insistent Scenario.issue st
    ∧ fetched st = [lit "a.py"].
Proof.
  eexists. split.
  - eapply reach_turn; [apply reach_start|]. vm_compute. reflexivity.
  - reflexivity.
Qed.

Lemma react_conversation_shape_witness :
  ∃ st,
    reachable Scenario.disk Scenario.insistent Scenario.issue st
    ∧ fetched st = [lit "a.py"]
    ∧ conversation_ok (messages st) = true.
Proof.
  destruct reachable_after_request as (st & Hreach & Hfetched).
  exists st. split; [exact Hreach|]. split; [exact Hfetched|].
  exact (proj1 (react_conversation_shape _ _ _ _ Hreach)).
Defined.

(** X5: at every turn of an invocation, the set of requested files holds
    exactly the paths that went to the content fetcher, and for each of them
    the conversation holds the user turn with what the fetcher returned, the
    text of the file or the sentinel of the failure. *)
Theorem react_requested_delivered (env : environment) (claude : provider)
  (issue_description : str) (st : state) :
  reachable env claude issue_description st →
  (∀ path, path ∈ requested_files st ↔ path ∈ fetched st)
  ∧ ∀ path, path ∈ requested_files st →
      ∃ first last,
        {| msg_role := user;
           content := lit "File content for " ++ path ++ lit ":" ++ [nl]
                      ++ read_file_content env path first last ++ [nl; nl]
                      ++ lit "Now please provide your final analysis with <analysis> and <solution> blocks." |}
        ∈ messages st.
Proof.
  intros (_ & _ & [Hset Hturns] & _)%reachable_invariant.
  split; [done|]. intros path Hpath%Hset. by apply Hturns.
Qed.

Lemma react_requested_delivered_witness :
  ∃ st,
    reachable Scenario.disk Scenario.insistent Scenario.issue st
    ∧ fetched st = [lit "a.py"]
    ∧ lit "a.py" ∈ requested_files st.
Proof.
  destruct reachable_after_request as (st & Hreach & Hfetched).
  exists st. split; [exact Hreach|]. split; [exact Hfetched|].
  apply (proj1 (react_requested_delivered _ _ _ _ Hreach)).
  rewrite Hfetched. apply list_elem_of_singleton. reflexivity.
Defined.

(** ** More on strings *)

Section StringsBeyond.

Implicit Types s p : str.

Lemma rev_reverse {A} (l : list A) : rev l = reverse l.
Proof. by rewrite rev_alt. Qed.

Lemma lstrip_suffix s : ∃ ws, s = ws ++ lstrip s.
Proof.
  induction s as [|c s (ws & IH)]; [by exists []|].
  cbn [lstrip]. destruct (isspace c).
  - exists (c :: ws). simpl. by f_equal.
  - by exists [].
Qed.

Lemma lstrip_head s c : head (lstrip s) = Some c → isspace c = false.
Proof.
  induction s as [|c0 s IH]; [done|].
  cbn [lstrip]. destruct (isspace c0) eqn:Hc0; [done|].
  by intros [= <-].
Qed.

Lemma lstrip_fixed s :
  (∀ c, head s = Some c → isspace c = false) → lstrip s = s.
Proof.
  destruct s as [|c s]; [done|]. intros Hc. cbn [lstrip].
  by rewrite Hc.
Qed.

(** What [strip] returns has no white space at either end, and [strip]
    leaves such a string as it is. *)
Lemma strip_trimmed s : trimmed (strip s).
Proof.
  unfold strip, rstrip. set (u := lstrip s). set (v := lstrip (rev u)).
  split; intros c.
  - destruct (lstrip_suffix (rev u)) as (ws & Hws). fold v in Hws.
    apply (f_equal (@rev char)) in Hws.
    rewrite rev_involutive, rev_app_distr in Hws.
    intros Hc. apply (lstrip_head s). fold u. rewrite Hws.
    destruct (rev v); [done|]. done.
  - rewrite rev_reverse, last_reverse. apply lstrip_head.
Qed.

Lemma strip_fixed s : trimmed s → strip s = s.
Proof.
  intros [Hhead Hlast]. unfold strip, rstrip.
  rewrite (lstrip_fixed s) by done.
  rewrite lstrip_fixed; [apply rev_involutive|].
  intros c. rewrite rev_reverse, head_reverse. apply Hlast.
Qed.

Lemma strip_inside s : ∃ a b, s = a ++ strip s ++ b.
Proof.
  unfold strip, rstrip.
  destruct (lstrip_suffix s) as (a & Ha).
  destruct (lstrip_suffix (rev (lstrip s))) as (ws & Hws).
  apply (f_equal (@rev char)) in Hws.
  rewrite rev_involutive, rev_app_distr in Hws.
  exists a, (rev ws). by rewrite <- Hws.
Qed.

Lemma split_nonempty (sep : char) s : split sep s ≠ [].
Proof.
  destruct s as [|c s]; [done|]. simpl.
  destruct (c =? sep)%N; [done|]. by destruct (split sep s).
Qed.

Lemma split_head_prefix (sep : char) s h t :
  split sep s = h :: t → ∃ post, s = h ++ post.
Proof.
  revert h t. induction s as [|c s IH]; intros h t; simpl.
  - intros [= <- <-]. by exists [].
  - destruct (c =? sep)%N.
    + intros [= <- <-]. by eexists.
    + destruct (split sep s) as [|h' t'] eqn:Hsplit.
      * by destruct (split_nonempty sep s).
      * intros [= <- <-]. destruct (IH h' t' eq_refl) as (post & ->).
        by exists post.
Qed.

(** A line of a text is a part of the text. *)
Lemma split_elem_inside (sep : char) s line :
  line ∈ split sep s → ∃ pre post, s = pre ++ line ++ post.
Proof.
  revert line. induction s as [|c s IH]; intros line; simpl.
  - intros ->%list_elem_of_singleton. by exists [], [].
  - destruct (c =? sep)%N.
    + intros [->|Hin]%elem_of_cons; [by exists [], (c :: s)|].
      destruct (IH line Hin) as (pre & post & ->). by exists (c :: pre), post.
    + destruct (split sep s) as [|h t] eqn:Hsplit.
      * by destruct (split_nonempty sep s).
      * intros [->|Hin]%elem_of_cons.
        -- destruct (split_head_prefix sep s h t Hsplit) as (post & ->).
           by exists [], post.
        -- destruct (IH line) as (pre & post & ->); [by right|].
           by exists (c :: pre), post.
Qed.

(** Joining the lines of a text gives the text back. *)
Lemma join_split (sep : char) s : join [sep] (split sep s) = s.
Proof.
  induction s as [|c s IH]; [done|]. simpl.
  destruct (N.eqb_spec c sep) as [->|Hne].
  - destruct (split sep s) as [|h t] eqn:Hsplit.
    + by destruct (split_nonempty sep s).
    + cbn [join]. simpl. by rewrite <- IH.
  - destruct (split sep s) as [|h [|x t]] eqn:Hsplit.
    + by destruct (split_nonempty sep s).
    + simpl in *. by rewrite IH.
    + change (join [sep] ((c :: h) :: x :: t))
        with (c :: join [sep] (h :: x :: t)).
      by rewrite IH.
Qed.

Lemma split_no_sep (sep : char) s : sep ∉ s → split sep s = [s].
Proof.
  induction s as [|c s IH]; [done|].
  intros [Hc Hs]%not_elem_of_cons. simpl.
  destruct (N.eqb_spec c sep) as [->|_]; [done|]. by rewrite IH.
Qed.

Lemma split_app_sep (sep : char) (a b : str) :
  sep ∉ a → split sep (a ++ sep :: b) = a :: split sep b.
Proof.
  induction a as [|c a IH]; simpl.
  - by rewrite N.eqb_refl.
  - intros [Hc Ha]%not_elem_of_cons.
    destruct (N.eqb_spec c sep) as [->|_]; [done|]. by rewrite IH.
Qed.

(** Splitting the join of lines that hold no separator gives the lines
    back. *)
Lemma split_join (sep : char) (lines : list str) :
  lines ≠ [] → Forall (λ line, sep ∉ line) lines →
  split sep (join [sep] lines) = lines.
Proof.
  induction lines as [|x [|y lines] IH]; [done| |]; intros _ Hlines.
  - apply Forall_cons in Hlines as [Hx _]. by apply split_no_sep.
  - apply Forall_cons in Hlines as [Hx Hlines].
    change (join [sep] (x :: y :: lines))
      with (x ++ sep :: join [sep] (y :: lines)).
    rewrite split_app_sep by done. f_equal. by apply IH.
Qed.

(** The first item of a split is the text before the first separator. *)
Lemma split_head_find (sep : char) s :
  head (split sep s)
    = Some (match find s [sep] with Some i => take i s | None => s end).
Proof.
  induction s as [|c s IH]; [done|].
  change (find (c :: s) [sep])
    with (if (sep =? c)%N && true then Some 0 else S <$> find s [sep]).
  change (split sep (c :: s))
    with (if (c =? sep)%N then [] :: split sep s
          else match split sep s with
               | h :: t => (c :: h) :: t
               | [] => [[c]]
               end).
  rewrite (N.eqb_sym sep c), andb_true_r.
  destruct (c =? sep)%N; [done|].
  destruct (split sep s) as [|h t]; [done|].
  cbn [head] in *. injection IH as ->.
  by destruct (find s [sep]).
Qed.

Lemma find_cons_Some s p c n :
  find (c :: s) p = Some (S n) → startswith (c :: s) p = false ∧ find s p = Some n.
Proof.
  change (find (c :: s) p)
    with (if startswith (c :: s) p then Some 0 else S <$> find s p).
  destruct (startswith (c :: s) p); [done|].
  destruct (find s p); [|done]. by intros [= ->].
Qed.

Lemma contains_app (pre p post : str) : contains p (pre ++ p ++ post) = true.
Proof.
  unfold contains. by destruct (find_app pre p post) as (i & -> & _).
Qed.

End StringsBeyond.

(** ** More on the tool-request parser *)

Section ToolRequestsBeyond.

Local Abbreviation MARKER := (lit "TOOL_REQUEST:").
Local Abbreviation FILE := (lit "FILE:").

Lemma last_value_from label lines v :
  last_value label lines = Some v →
  ∃ raw, raw ∈ lines ∧ labelled label raw = true ∧ v = value_of label raw.
Proof.
  unfold last_value, field_values. intros (l' & Hl')%last_Some.
  assert (v ∈ value_of label <$> List.filter (labelled label) lines) as Hv
    by (rewrite Hl'; apply elem_of_app; right; by apply list_elem_of_singleton).
  apply list_elem_of_fmap in Hv as (raw & -> & Hraw).
  apply list_elem_of_In, filter_In in Hraw as [Hraw Hlabel].
  exists raw. by rewrite list_elem_of_In.
Qed.

(** A line that carries a label holds the label. *)
Lemma labelled_contains label raw :
  labelled label raw = true → contains label raw = true.
Proof.
  unfold labelled. intros Hstart%startswith_drop.
  destruct (strip_inside raw) as (a & b & Hraw).
  rewrite Hraw, Hstart, <- !app_assoc. apply contains_app.
Qed.

Lemma contains_line (label : str) (response_text raw : str) :
  raw ∈ split nl response_text → contains label raw = true →
  contains label response_text = true.
Proof.
  intros (pre & post & ->)%split_elem_inside. unfold contains at 1.
  destruct (find raw label) as [i|] eqn:Hi; [|done]. intros _.
  apply find_Some in Hi. rewrite Hi.
  replace (pre ++ (take i raw ++ label ++ drop (i + length label) raw) ++ post)
    with ((pre ++ take i raw) ++ label ++ (drop (i + length label) raw ++ post))
    by by rewrite <- !app_assoc.
  apply contains_app.
Qed.

Lemma spec_request_at_marker lines i r :
  spec_request_at lines i = Some r →
  ∃ raw, lines !! i = Some raw ∧ labelled MARKER raw = true.
Proof.
  unfold spec_request_at. destruct (lines !! i) as [raw|]; [simpl|done].
  destruct (labelled MARKER raw) eqn:Hraw; [|done]. by exists raw.
Qed.

Lemma omap_count_filter (lines : list str)
  (f : nat → option ToolRequest) (g : str → bool) (n : nat) :
  (∀ i r, f i = Some r → ∃ raw, lines !! i = Some raw ∧ g raw = true) →
  length (omap f (seq 0 n)) ≤ length (List.filter g (take n lines)).
Proof.
  intros Hf. induction n as [|n IH]; [done|].
  rewrite seq_S, omap_app, length_app. simpl.
  destruct (lines !! n) as [raw|] eqn:Hraw.
  - rewrite (take_S_r lines n raw), List.filter_app, length_app by done.
    destruct (f n) as [r|] eqn:Hfn; simpl; [|lia].
    destruct (Hf n r Hfn) as (raw' & Hraw' & Hg).
    assert (raw' = raw) as -> by congruence. rewrite Hg. simpl. lia.
  - destruct (f n) as [r|] eqn:Hfn.
    + destruct (Hf n r Hfn) as (raw' & Hraw' & _). congruence.
    + apply lookup_ge_None_1 in Hraw.
      rewrite !take_ge in * by lia. simpl. lia.
Qed.

End ToolRequestsBeyond.

(** X6: every request that the parser emits names a file: its path is not
    empty, and neither the path nor the tool has white space at its ends. *)
Theorem parse_tool_requests_trimmed (response_text : str) (r : ToolRequest) :
  r ∈ parse_tool_requests response_text →
  trimmed (tool r)
  ∧ ∃ path, file_path r = Some path ∧ path ≠ [] ∧ trimmed path.
Proof.
  rewrite parse_tool_requests_spec. unfold spec_parse_tool_requests.
  intros (i & _ & Hr)%list_elem_of_omap.
  unfold spec_request_at in Hr.
  destruct (_ !! i) as [raw|]; simplify_eq/=.
  destruct (labelled (lit "TOOL_REQUEST:") raw); simplify_eq/=.
  destruct (last_value (lit "FILE:") _) as [path|] eqn:Hpath; simplify_eq/=.
  destruct (truthy path) eqn:Hp; simplify_eq/=.
  split; [apply strip_trimmed|].
  exists path. split; [done|]. split; [by apply truthy_nonempty|].
  apply last_value_from in Hpath as (raw' & _ & _ & ->). apply strip_trimmed.
Qed.

Lemma parse_tool_requests_trimmed_witness :
  let r := {| tool := lit "read_file"; file_path := Some (lit "src/a.py");
              start_line := None; end_line := Some 7%Z |} in
  let response_text :=
    unlines ["  TOOL_REQUEST:   read_file  "; "FILE:  src/a.py   ";
             "END_LINE: 7"] in
  r ∈ parse_tool_requests response_text
  ∧ trimmed (tool r).
Proof.
  intros r response_text.
  assert (r ∈ parse_tool_requests response_text) as Hr.
  { replace (parse_tool_requests response_text) with [r]
      by (vm_compute; reflexivity).
    apply list_elem_of_singleton. reflexivity. }
  split; [exact Hr|].
  exact (proj1 (parse_tool_requests_trimmed response_text r Hr)).
Defined.

(** X7: a reply that does not hold the text [TOOL_REQUEST:] yields no
    request, whatever else it holds. *)
Theorem parse_tool_requests_no_marker (response_text : str) :
  contains (lit "TOOL_REQUEST:") response_text = false →
  parse_tool_requests response_text = [].
Proof.
  intros Hnone. rewrite parse_tool_requests_spec.
  unfold spec_parse_tool_requests.
  destruct (omap _ _) as [|r rs] eqn:Hrs; [done|].
  assert (r ∈ omap (spec_request_at (split nl response_text))
                (seq 0 (length (split nl response_text)))) as Hr
    by (rewrite Hrs; left).
  apply list_elem_of_omap in Hr as (i & _ & Hr).
  apply spec_request_at_marker in Hr as (raw & Hraw & Hmarker).
  apply labelled_contains in Hmarker.
  apply list_elem_of_lookup_2 in Hraw.
  by rewrite (contains_line _ _ _ Hraw Hmarker) in Hnone.
Qed.

Lemma parse_tool_requests_no_marker_witness :
  let response_text :=
    unlines ["I would like to read a file."; "FILE: a.py"; "START_LINE: 1"] in
  contains (lit "TOOL_REQUEST:") response_text = false
  ∧ parse_tool_requests response_text = [].
Proof.
  intros response_text.
  assert (contains (lit "TOOL_REQUEST:") response_text = false) as Hnone
    by (vm_compute; reflexivity).
  split; [exact Hnone|].
  exact (parse_tool_requests_no_marker response_text Hnone).
Defined.

(** X8: the parser emits at most one request for each line that carries
    the marker, so never more requests than the reply has marker lines. *)
Theorem parse_tool_requests_count (response_text : str) :
  length (parse_tool_requests response_text)
  ≤ length (List.filter (labelled (lit "TOOL_REQUEST:"))
              (split nl response_text))
  ∧ length (parse_tool_requests response_text)
    ≤ length (split nl response_text).
Proof.
  assert (length (parse_tool_requests response_text)
          ≤ length (List.filter (labelled (lit "TOOL_REQUEST:"))
                      (split nl response_text))) as Hcount.
  { rewrite parse_tool_requests_spec. unfold spec_parse_tool_requests.
    etrans; [apply (omap_count_filter (split nl response_text)
                      _ (labelled (lit "TOOL_REQUEST:")))|].
    - intros i r. apply spec_request_at_marker.
    - by rewrite firstn_all. }
  split; [done|]. etrans; [exact Hcount|]. apply List.filter_length_le.
Qed.

(** ** More on the response parser *)

Section ResponseBeyond.

Implicit Types s p : str.

(** The first place of a pattern: there is none before it. *)
Lemma find_take_none s p j :
  p ≠ [] → find s p = Some j → contains p (take j s) = false.
Proof.
  intros Hp Hj. unfold contains.
  destruct (find (take j s) p) as [k|] eqn:Hk; [exfalso|done].
  apply find_Some in Hk as Hinside.
  assert (length (take k (take j s)) + length p ≤ j) as Hlen.
  { apply (f_equal length) in Hinside.
    rewrite !length_app in Hinside.
    assert (length (take j s) ≤ j) by (rewrite length_take; lia). lia. }
  destruct (find_app (take k (take j s)) p
              (drop (k + length p) (take j s) ++ drop j s)) as (i & Hi & Hle).
  replace (take k (take j s) ++ p
           ++ drop (k + length p) (take j s) ++ drop j s)
    with s in Hi.
  - rewrite Hj in Hi. injection Hi as ->.
    destruct p; [done|]. simpl in Hlen. lia.
  - rewrite <- (take_drop j s) at 1. rewrite Hinside at 1.
    by rewrite <- !app_assoc.
Qed.

Lemma find_first_sep (sep : char) s :
  match find s [sep] with
  | Some i => sep ∉ take i s
  | None => sep ∉ s
  end.
Proof.
  induction s as [|c s IH]; [apply not_elem_of_nil|].
  change (find (c :: s) [sep])
    with (if (sep =? c)%N && true then Some 0 else S <$> find s [sep]).
  rewrite andb_true_r. destruct (N.eqb_spec sep c) as [->|Hne].
  - apply not_elem_of_nil.
  - destruct (find s [sep]) as [i|]; simpl; by apply not_elem_of_cons.
Qed.

(** Each match of [re.findall] is in the text between the two tags, and
    does not hold the closing tag. *)
Lemma re_findall_from_sound (opn cls : str) (skip : nat) s g :
  cls ≠ [] → g ∈ re_findall_from opn cls skip s →
  contains cls g = false ∧ ∃ pre post, s = pre ++ opn ++ g ++ cls ++ post.
Proof.
  intros Hcls. revert skip. induction s as [|c s IH]; intros skip.
  - by intros ?%not_elem_of_nil.
  - assert (∀ k, g ∈ re_findall_from opn cls k s →
              contains cls g = false
              ∧ ∃ pre post, c :: s = pre ++ opn ++ g ++ cls ++ post) as Hrest.
    { intros k (Hg & pre & post & ->)%IH. split; [done|].
      by exists (c :: pre), post. }
    cbn [re_findall_from]. destruct skip as [|k]; [|apply Hrest].
    destruct (startswith (c :: s) opn) eqn:Hopn; [|apply Hrest].
    destruct (find (drop (length opn) (c :: s)) cls) as [j|] eqn:Hj;
      [|apply Hrest].
    intros [->|Hin]%elem_of_cons; [|by eapply Hrest].
    split; [by apply find_take_none|].
    apply startswith_drop in Hopn. apply find_Some in Hj.
    exists [], (drop (j + length cls) (drop (length opn) (c :: s))).
    simpl. rewrite Hopn at 1. by rewrite Hj at 1.
Qed.

(** Passing over [skip] characters is dropping them. *)
Lemma re_findall_from_skip (opn cls : str) (skip : nat) s :
  re_findall_from opn cls skip s = re_findall opn cls (drop skip s).
Proof.
  revert skip. induction s as [|c s IH]; intros [|k]; try done.
  cbn [re_findall_from drop]. apply IH.
Qed.

(** The first span of a text and the spans behind it. *)
Lemma re_findall_first (opn cls pre body rest : str) :
  opn ≠ [] →
  find (pre ++ opn ++ body ++ cls ++ rest) opn = Some (length pre) →
  find (body ++ cls ++ rest) cls = Some (length body) →
  re_findall opn cls (pre ++ opn ++ body ++ cls ++ rest)
    = body :: re_findall opn cls rest.
Proof.
  intros Hopn Hfirst Hclose. unfold re_findall.
  induction pre as [|c pre IH].
  - destruct opn as [|o opn]; [done|].
    cbn [app re_findall_from].
    change (o :: opn ++ body ++ cls ++ rest)
      with ((o :: opn) ++ body ++ cls ++ rest).
    rewrite startswith_app, drop_app_length, Hclose.
    rewrite take_app_length. f_equal.
    rewrite re_findall_from_skip. f_equal.
    replace (length (o :: opn) + length body + length cls - 1)
      with (length (opn ++ body ++ cls)) by (rewrite !length_app; simpl; lia).
    replace (opn ++ body ++ cls ++ rest) with ((opn ++ body ++ cls) ++ rest)
      by by rewrite <- !app_assoc.
    apply drop_app_length.
  - cbn [app length] in Hfirst.
    apply find_cons_Some in Hfirst as [Hno Hfirst].
    cbn [app re_findall_from]. cbn [app] in Hno. rewrite Hno. by apply IH.
Qed.

Lemma re_findall_none (opn cls : str) s :
  contains opn s = false → re_findall opn cls s = [].
Proof.
  unfold contains, re_findall. induction s as [|c s IH]; [done|].
  change (find (c :: s) opn)
    with (if startswith (c :: s) opn then Some 0 else S <$> find s opn).
  cbn [re_findall_from].
  destruct (startswith (c :: s) opn); [done|].
  destruct (find s opn); [done|]. by apply IH.
Qed.

(** On either path the reasoning trace of the record is the list of the
    thinking spans. *)
Lemma extract_analysis_trace response_text a :
  extract_analysis response_text = Some a →
  reasoning_trace a = thinking_spans response_text.
Proof.
  destruct (re_search_group (lit "<analysis>") (lit "</analysis>") response_text)
    as [analysis_text|] eqn:Hblock.
  - rewrite (extract_analysis_tagged _ _ Hblock). by intros [= <-].
  - rewrite (extract_analysis_untagged _ Hblock). by intros [= <-].
Qed.

End ResponseBeyond.

(** X9: in a fallback record the root cause is the text of the reply before
    its first period (all of it when there is none), cut to 200 characters
    and three dots when it is longer, so never longer than 203 and without a
    period before the cut; the explanation is the reply, cut in the same way
    at 500, so never longer than 503. *)
Theorem fallback_fields (response_text : str) :
  let a := _create_fallback_analysis response_text in
  root_cause a = truncated 200 (first_sentence response_text)
  ∧ (period ∉ first_sentence response_text)
  ∧ explanation a = truncated 500 response_text
  ∧ length (root_cause a) ≤ 203
  ∧ length (explanation a) ≤ 503.
Proof.
  intros a.
  assert (root_cause a = truncated 200 (first_sentence response_text)) as Hroot.
  { subst a. unfold _create_fallback_analysis, first_sentence. cbn [root_cause].
    pose proof (split_head_find period response_text) as Hhead.
    destruct (split period response_text) as [|s0 rest]; [done|].
    injection Hhead as ->. done. }
  split; [done|]. split.
  - unfold first_sentence. pose proof (find_first_sep period response_text).
    by destruct (find response_text [period]).
  - split; [done|].
    destruct (fallback_record_shape response_text) as (? & ? & _). done.
Qed.

(** X10: on a reply with an analysis block, the record has a root cause and
    an explanation that are not empty, and its file changes are the one entry
    [solution.md], with the text of the first solution block of the reply,
    empty when there is none. *)
Theorem extract_analysis_tagged_fields (response_text analysis_text : str) :
  re_search_group (lit "<analysis>") (lit "</analysis>") response_text
    = Some analysis_text →
  ∃ a, extract_analysis response_text = Some a
    ∧ root_cause a ≠ []
    ∧ explanation a ≠ []
    ∧ size (file_changes a) = 1
    ∧ file_changes a !! lit "solution.md"
      = Some (default [] (re_search_group (lit "<solution>")
                            (lit "</solution>") response_text)).
Proof.
  intros Hblock. eexists. split; [by apply extract_analysis_tagged|].
  cbn [root_cause explanation file_changes].
  split; [|split; [|split]].
  - by destruct (last_value _ _) as [[|]|].
  - destruct (last_value (lit "EXPLANATION:") _) as [[|]|]; try done;
      by intros [_ ?]%app_eq_nil.
  - apply map_size_singleton.
  - apply lookup_singleton_eq.
Qed.

Lemma extract_analysis_tagged_fields_witness :
  let analysis_text := nl :: unlines ["CONFIDENCE: LOW"; ""] in
  let response_text :=
    lit "<analysis>" ++ analysis_text ++ lit "</analysis>"
    ++ lit "<solution>return user</solution>" in
  re_search_group (lit "<analysis>") (lit "</analysis>") response_text
    = Some analysis_text
  ∧ ∃ a, extract_analysis response_text = Some a
    ∧ root_cause a ≠ []
    ∧ file_changes a !! lit "solution.md" = Some (lit "return user").
Proof.
  intros analysis_text response_text.
  assert (re_search_group (lit "<analysis>") (lit "</analysis>") response_text
            = Some analysis_text) as Hblock by (vm_compute; reflexivity).
  split; [exact Hblock|].
  destruct (extract_analysis_tagged_fields response_text analysis_text Hblock)
    as (a & Ha & Hroot & _ & _ & Hsolution).
  exists a. split; [exact Ha|]. split; [exact Hroot|].
  rewrite Hsolution. vm_compute. reflexivity.
Defined.

(** X11: a reply that lacks the opening or the closing tag of the analysis
    block, an unclosed block for one, gets the fallback record. *)
Theorem extract_analysis_unclosed (response_text : str) :
  contains (lit "<analysis>") response_text = false
  ∨ contains (lit "</analysis>") response_text = false →
  extract_analysis response_text
    = Some (_create_fallback_analysis response_text).
Proof.
  intros Hmissing. apply extract_analysis_untagged.
  destruct (re_search_group _ _ response_text) as [g|] eqn:Hg; [exfalso|done].
  apply re_search_group_sound in Hg as (pre & post & ->).
  destruct Hmissing as [Hopen|Hclose].
  - by rewrite contains_app in Hopen.
  - replace (pre ++ lit "<analysis>" ++ g ++ lit "</analysis>" ++ post)
      with ((pre ++ lit "<analysis>" ++ g) ++ lit "</analysis>" ++ post)
      in Hclose by by rewrite <- !app_assoc.
    by rewrite contains_app in Hclose.
Qed.

Lemma extract_analysis_unclosed_witness :
  let response_text :=
    unlines ["<analysis>"; "ROOT_CAUSE: the session is None";
             "CONFIDENCE: HIGH"] in
  contains (lit "</analysis>") response_text = false
  ∧ ∃ a, extract_analysis response_text = Some a
    ∧ confidence a = lit "MEDIUM"
    ∧ file_changes a = {[ lit "analysis.md" := response_text ]}.
Proof.
  intros response_text.
  assert (contains (lit "</analysis>") response_text = false) as Hclose
    by (vm_compute; reflexivity).
  split; [exact Hclose|].
  exists (_create_fallback_analysis response_text).
  split; [|split; reflexivity].
  apply extract_analysis_unclosed. right. exact Hclose.
Defined.

(** X12: each entry of the reasoning trace that [extract_analysis] returns is
    the trimmed text between an opening and the next closing thinking tag of
    the reply: it has no white space at its ends, and the text it was
    trimmed from holds no closing tag. *)
Theorem reasoning_trace_spans (response_text : str) (a : BugAnalysis)
  (entry : str) :
  extract_analysis response_text = Some a →
  entry ∈ reasoning_trace a →
  trimmed entry
  ∧ ∃ span pre post,
      entry = strip span
      ∧ contains (lit "</thinking>") span = false
      ∧ response_text
        = pre ++ lit "<thinking>" ++ span ++ lit "</thinking>" ++ post.
Proof.
  intros ->%extract_analysis_trace. unfold thinking_spans.
  intros (span & -> & Hspan)%list_elem_of_fmap.
  split; [apply strip_trimmed|].
  apply re_findall_from_sound in Hspan as (Hlazy & pre & post & ->); [|done].
  by exists span, pre, post.
Qed.

Lemma reasoning_trace_spans_witness :
  let response_text :=
    lit "<thinking> check auth.py </thinking>The token is stale." in
  ∃ a, extract_analysis response_text = Some a
    ∧ lit "check auth.py" ∈ reasoning_trace a
    ∧ trimmed (lit "check auth.py").
Proof.
  intros response_text.
  assert (extract_analysis response_text
            = Some (_create_fallback_analysis response_text)) as Ha
    by (vm_compute; reflexivity).
  assert (lit "check auth.py"
            ∈ reasoning_trace (_create_fallback_analysis response_text)) as Hin.
  { replace (reasoning_trace (_create_fallback_analysis response_text))
      with [lit "check auth.py"] by (vm_compute; reflexivity).
    apply list_elem_of_singleton. reflexivity. }
  eexists. split; [exact Ha|]. split; [exact Hin|].
  exact (proj1 (reasoning_trace_spans response_text _ _ Ha Hin)).
Defined.

(** X13: the thinking spans are taken in the order of the reply.  When the
    first opening tag of a reply is behind [pre] and the first closing tag
    behind it is behind [body], the trace is the trimmed [body] and then the
    trace of the rest of the reply; a reply without an opening tag has an
    empty trace.  So a reply with N spans one after the other has N
    entries. *)
Theorem thinking_spans_in_order :
  (∀ response_text,
     contains (lit "<thinking>") response_text = false →
     thinking_spans response_text = [])
  ∧ (∀ pre body rest,
       find (pre ++ lit "<thinking>" ++ body ++ lit "</thinking>" ++ rest)
         (lit "<thinking>") = Some (length pre) →
       find (body ++ lit "</thinking>" ++ rest) (lit "</thinking>")
         = Some (length body) →
       thinking_spans
         (pre ++ lit "<thinking>" ++ body ++ lit "</thinking>" ++ rest)
       = strip body :: thinking_spans rest)
  ∧ (∀ response_text a,
       extract_analysis response_text = Some a →
       reasoning_trace a = thinking_spans response_text).
Proof.
  split; [|split].
  - intros response_text Hnone. unfold thinking_spans.
    by rewrite re_findall_none.
  - intros pre body rest Hopen Hclose. unfold thinking_spans.
    by rewrite re_findall_first.
  - apply extract_analysis_trace.
Qed.

Lemma thinking_spans_in_order_witness :
  let rest := lit " then <thinking>b</thinking>" in
  thinking_spans (lit "so: " ++ lit "<thinking>" ++ lit " a " ++ lit "</thinking>"
                  ++ rest)
    = lit "a" :: thinking_spans rest
  ∧ thinking_spans (lit "no tags here") = [].
Proof.
  intros rest.
  destruct thinking_spans_in_order as (Hnone & Hfirst & _). split.
  - rewrite (Hfirst (lit "so: ") (lit " a ") rest);
      [reflexivity|vm_compute; reflexivity|vm_compute; reflexivity].
  - apply Hnone. vm_compute. reflexivity.
Defined.

(** ** More on the content fetcher *)

(** X14: a range that covers the whole file returns the text of the file
    unchanged behind the header: from line 1 with no end, or with no start
    and an end at or behind the last line.  A bound of 0 is a bound that is
    not given. *)
Theorem read_whole_file (env : environment) (file_path content : str) :
  provide env file_path = Some (Ok content) →
  let n := Z.of_nat (length (split nl content)) in
  read_file_content env file_path (Some 1%Z) None
    = lit "# " ++ file_path ++ lit " lines 1-" ++ str_of_int n ++ [nl]
      ++ content
  ∧ (∀ m, (n ≤ m)%Z →
       read_file_content env file_path None (Some m)
         = lit "# " ++ file_path ++ lit " lines 1-" ++ str_of_int m ++ [nl]
           ++ content)
  ∧ (∀ end_line,
       read_file_content env file_path (Some 0%Z) end_line
         = read_file_content env file_path None end_line)
  ∧ (∀ start_line,
       read_file_content env file_path start_line (Some 0%Z)
         = read_file_content env file_path start_line None).
Proof.
  intros Hprovide n.
  assert (∀ start_line end_line,
            read_file_content env file_path start_line end_line
              = frame file_path start_line end_line content) as Hread.
  { intros start_line end_line. unfold provide, read_file_content in *.
    destruct (repo env) as [get_contents|].
    - by injection Hprovide as ->.
    - destruct (local_fs env file_path) as [|r]; [done|].
      by injection Hprovide as ->. }
  assert (∀ m, (n ≤ m)%Z → slice (split nl content) 0 m = split nl content)
    as Hslice.
  { intros m Hm. unfold slice, slice_index. fold n.
    destruct (Z.ltb_spec m 0) as [?|_]; [lia|]. simpl.
    replace (Z.to_nat (n `min` (0 `max` m))) with (length (split nl content))
      by lia.
    replace (Z.to_nat (n `min` (0 `max` 0))) with 0 by lia.
    rewrite Nat.sub_0_r. by rewrite take_ge by done. }
  assert (n ≠ 0%Z) as Hn.
  { pose proof (split_nonempty nl content).
    subst n. destruct (split nl content); [done|simpl; lia]. }
  rewrite !Hread. split; [|split; [|split]].
  - unfold frame. change (given (Some 1%Z)) with true.
    change (given None) with false. cbn [orb default].
    fold n. change (id 1 - 1)%Z with 0%Z. rewrite Hslice by lia.
    rewrite join_split.
    change (lit " lines 1-") with (lit " lines " ++ str_of_int (0 + 1) ++ lit "-").
    by rewrite <- !app_assoc.
  - intros m Hm. rewrite Hread. unfold frame. cbn [given orb].
    destruct (Z.eqb_spec m 0) as [->|_]; [lia|]. cbn [negb default].
    rewrite Hslice by done. rewrite join_split.
    change (lit " lines 1-") with (lit " lines " ++ str_of_int (0 + 1) ++ lit "-").
    by rewrite <- !app_assoc.
  - intros end_line. by rewrite !Hread.
  - intros start_line. by rewrite !Hread.
Qed.

Lemma read_whole_file_witness :
  let content := unlines ["def f():"; "    return None"] in
  provide Scenario.disk (lit "a.py") = Some (Ok content)
  ∧ read_file_content Scenario.disk (lit "a.py") (Some 1%Z) None
    = unlines ["# a.py lines 1-2"; "def f():"; "    return None"].
Proof.
  intros content.
  assert (provide Scenario.disk (lit "a.py") = Some (Ok content)) as Hprovide
    by reflexivity.
  split; [exact Hprovide|].
  rewrite (proj1 (read_whole_file Scenario.disk (lit "a.py") content Hprovide)).
  vm_compute. reflexivity.
Defined.

(** X15: a range that holds no line gives the header alone, not an error: a
    start behind the last line of the file, whatever the end is, or an end
    before the start. *)
Theorem read_empty_range (env : environment) (file_path content : str)
  (first : Z) (end_line : option Z) :
  provide env file_path = Some (Ok content) →
  (Z.of_nat (length (split nl content)) < first)%Z
  ∨ (∃ last, end_line = Some last ∧ 1 ≤ last < first)%Z →
  read_file_content env file_path (Some first) end_line
    = lit "# " ++ file_path ++ lit " lines " ++ str_of_int first ++ lit "-"
      ++ str_of_int (if given end_line then default 0%Z end_line
                     else Z.of_nat (length (split nl content)))
      ++ [nl].
Proof.
  intros Hprovide Hempty.
  assert (read_file_content env file_path (Some first) end_line
            = frame file_path (Some first) end_line content) as ->.
  { unfold provide, read_file_content in *.
    destruct (repo env) as [get_contents|].
    - by injection Hprovide as ->.
    - destruct (local_fs env file_path) as [|r]; [done|].
      by injection Hprovide as ->. }
  assert (first ≠ 0)%Z as Hfirst by (destruct Hempty as [?|(? & _ & ?)]; lia).
  unfold frame. cbn [given].
  destruct (Z.eqb_spec first 0) as [?|_]; [done|]. cbn [negb orb default].
  set (stop := if given end_line then _ else _).
  change (id first) with first.
  assert (slice (split nl content) (first - 1) stop = []) as ->.
  { unfold slice, slice_index.
    destruct (Z.ltb_spec (first - 1) 0) as [?|_];
      [destruct Hempty as [?|(? & _ & ?)]; lia|].
    apply length_zero_iff_nil. rewrite length_take, length_drop.
    destruct Hempty as [Hbehind|(last & -> & Hlast)].
    - lia.
    - subst stop. cbn [given].
      destruct (Z.eqb_spec last 0) as [?|_]; [lia|]. cbn [negb default].
      change (id last) with last.
      destruct (Z.ltb_spec last 0) as [?|_]; [lia|]. lia. }
  replace (first - 1 + 1)%Z with first by lia.
  by rewrite app_nil_r.
Qed.

Lemma read_empty_range_witness :
  let content := unlines ["def f():"; "    return None"] in
  provide Scenario.disk (lit "a.py") = Some (Ok content)
  ∧ (Z.of_nat (length (split nl content)) < 40)%Z
  ∧ read_file_content Scenario.disk (lit "a.py") (Some 40%Z) (Some 50%Z)
    = unlines ["# a.py lines 40-50"; ""].
Proof.
  intros content.
  assert (provide Scenario.disk (lit "a.py") = Some (Ok content)) as Hprovide
    by reflexivity.
  assert (Z.of_nat (length (split nl content)) < 40)%Z as Hbehind
    by (vm_compute; reflexivity).
  split; [exact Hprovide|]. split; [exact Hbehind|].
  rewrite (read_empty_range Scenario.disk (lit "a.py") content 40 (Some 50%Z)
             Hprovide (or_introl Hbehind)).
  vm_compute. reflexivity.
Defined.

(** X16: what [read_file_content] returns begins with [# ] exactly when the
    provider has returned the text of the file: the two sentinels of a
    failure never do, whatever the path and the message of the error. *)
Theorem read_file_content_success_mark (env : environment) (file_path : str)
  (start_line end_line : option Z) :
  startswith (read_file_content env file_path start_line end_line) (lit "# ")
    = true
  ↔ ∃ content, provide env file_path = Some (Ok content).
Proof.
  assert (∀ content,
            startswith (frame file_path start_line end_line content) (lit "# ")
              = true) as Hframe.
  { intros content. unfold frame.
    destruct (_ || _); apply startswith_app. }
  unfold provide, read_file_content.
  destruct (repo env) as [get_contents|].
  - destruct (get_contents file_path) as [content|e].
    + split; [by exists content|by intros _].
    + split; [done|]. by intros [? [=]].
  - destruct (local_fs env file_path) as [|[content|e]].
    + split; [done|]. by intros [? [=]].
    + split; [by exists content|by intros _].
    + split; [done|]. by intros [? [=]].
Qed.

(** ** More on the direct path *)

Section DirectBeyond.

Variable env : environment.


End DirectBeyond.


(** X18: the direct path gives no result exactly when the call of the model
    fails.  When the model replies, the result is the record that
    [extract_analysis] gives for the reply, with a reasoning trace of one
    entry, a preview of the reply of at most 220 characters: the thinking
    spans of the reply are not in it. *)
Theorem analyze_bug_direct_record (env : environment) (claude : provider)
  (issue_description : str) (file_paths : option (list str)) :
  match claude 0 [ {| msg_role := user;
                      content := (direct_prompt env issue_description
                                    file_paths).1 |} ] with
  | ProviderError _ =>
      analyze_bug_direct env claude issue_description file_paths = None
  | Reply response_text =>
      ∃ a entry,
        extract_analysis response_text = Some a
        ∧ analyze_bug_direct env claude issue_description file_paths
          = Some (set_reasoning_trace a [entry])
        ∧ entry = lit "Direct analysis: " ++ take 200 response_text ++ lit "..."
        ∧ length entry ≤ 220
  end.
Proof.
  unfold analyze_bug_direct.
  destruct (claude 0 _) as [response_text|e]; [|done].
  destruct (extract_analysis_total response_text) as [a Ha].
  exists a. eexists. rewrite Ha. repeat split.
  rewrite !length_app, length_take.
  change (length (lit "Direct analysis: ")) with 17.
  change (length (lit "...")) with 3. lia.
Qed.

(** ** File resolver, orchestrator and model selection *)

Section ResolverBeyond.

Implicit Types s g : str.

Lemma span_spec (p : char → bool) s run rest :
  span p s = (run, rest) →
  s = run ++ rest ∧ Forall (λ c, p c = true) run.
Proof.
  revert run rest. induction s as [|c s IH]; intros run rest; simpl.
  - by intros [= <- <-].
  - destruct (p c) eqn:Hc; [|by intros [= <- <-]].
    destruct (span p s) as [run' rest'].
    intros [= <- <-]. destruct (IH run' rest' eq_refl) as [-> Hrun].
    split; [done|]. by constructor.
Qed.

Lemma endswith_app s p : endswith (s ++ p) p = true.
Proof. unfold endswith. rewrite rev_app_distr. apply startswith_app. Qed.

Lemma endswith_inv s p : endswith s p = true → ∃ x, s = x ++ p.
Proof.
  unfold endswith. intros Hs%startswith_drop.
  exists (rev (drop (length (rev p)) (rev s))).
  rewrite <- (rev_involutive s), Hs at 1.
  by rewrite rev_app_distr, rev_involutive.
Qed.

(** A match of the path pattern is a prefix of the text that ends with
    [.py]; it is made of a first character of a name, characters of a name,
    and [.py]. *)
Lemma match_path_spec s g :
  match_path s = Some g →
  endswith g (lit ".py") = true
  ∧ (∃ post, s = g ++ post)
  ∧ ∃ c run, g = c :: run ++ lit ".py"
      ∧ is_name_start c = true ∧ Forall (λ x, is_name_char x = true) run.
Proof.
  unfold match_path. destruct s as [|c s]; [done|].
  destruct (is_name_start c) eqn:Hc; [|done].
  destruct (span is_name_char s) as [run rest] eqn:Hspan.
  destruct (startswith rest (lit ".py")) eqn:Hpy; [|done].
  intros [= <-]. apply span_spec in Hspan as [-> Hrun].
  apply startswith_drop in Hpy.
  split; [apply (endswith_app (c :: run))|]. split.
  - exists (drop (length (lit ".py")) rest). rewrite Hpy at 1.
    cbn [app]. by rewrite <- app_assoc.
  - by exists c, run.
Qed.

(** A group of one of the three patterns ends with [.py] and is a part of
    the text that the pattern is matched at. *)
Lemma file_patterns_spec pattern s g len :
  pattern ∈ file_patterns → pattern s = Some (g, len) →
  endswith g (lit ".py") = true ∧ ∃ pre post, s = pre ++ g ++ post.
Proof.
  unfold file_patterns.
  intros [->|[->|[->|[]%elem_of_nil]%elem_of_cons]%elem_of_cons]%elem_of_cons.
  - unfold pattern_traceback.
    destruct (startswith s (lit "File " ++ [quote])) eqn:Hfile; [|done].
    destruct (span is_not_quote (drop 6 s)) as [run rest] eqn:Hspan.
    destruct rest as [|q rest]; [done|].
    destruct (bool_decide _ && endswith run (lit ".py")) eqn:Hrun; [|done].
    intros [= <- <-]. apply andb_true_iff in Hrun as [_ Hrun].
    split; [done|]. apply span_spec in Hspan as [Hspan _].
    apply startswith_drop in Hfile.
    exists (lit "File " ++ [quote]), (q :: rest).
    rewrite Hfile at 1. by rewrite <- Hspan.
  - unfold pattern_in.
    destruct (startswith s (lit "in ")) eqn:Hin; [|done].
    destruct (match_path (drop 3 s)) as [g'|] eqn:Hg; [|done].
    intros [= <- <-].
    apply match_path_spec in Hg as (Hpy & (post & Hpost) & _).
    split; [done|]. apply startswith_drop in Hin.
    exists (lit "in "), post. rewrite Hin at 1. by rewrite <- Hpost.
  - unfold pattern_bare. destruct (match_path s) as [g'|] eqn:Hg; [|done].
    intros [= <- <-].
    apply match_path_spec in Hg as (Hpy & (post & Hpost) & _).
    split; [done|]. by exists [], post.
Qed.

(** Each item that [findall] gives is the group of a match at some place of
    the text. *)
Lemma findall_from_elem (match_at : str → option (str * nat)) (skip : nat)
  s g :
  g ∈ findall_from match_at skip s →
  ∃ pre s' len, s = pre ++ s' ∧ match_at s' = Some (g, len).
Proof.
  revert skip. induction s as [|c s IH]; intros skip.
  - by intros ?%not_elem_of_nil.
  - assert (∀ k, g ∈ findall_from match_at k s →
              ∃ pre s' len, c :: s = pre ++ s' ∧ match_at s' = Some (g, len))
      as Hrest.
    { intros k (pre & s' & len & -> & Hmatch)%IH.
      by exists (c :: pre), s', len. }
    cbn [findall_from]. destruct skip as [|k]; [|apply Hrest].
    destruct (match_at (c :: s)) as [[g' len]|] eqn:Hmatch; [|apply Hrest].
    intros [->|Hin]%elem_of_cons; [|by eapply Hrest].
    by exists [], (c :: s), len.
Qed.

Lemma existing_spec (path_exists : str → option bool) (files found : list str) :
  existing path_exists files = Some found →
  found = List.filter (λ f, bool_decide (path_exists f = Some true)) files
  ∧ Forall (λ f, is_Some (path_exists f)) files.
Proof.
  revert found. induction files as [|f files IH]; intros found.
  - by intros [= <-].
  - cbn [existing]. destruct (path_exists f) as [b|] eqn:Hf; [simpl|done].
    destruct (existing path_exists files) as [rest|]; [simpl|done].
    intros [= <-]. destruct (IH rest eq_refl) as [-> Hall].
    split; [|by constructor]. rewrite Hf. by destruct b.
Qed.

Lemma first_working_spec (works : str → bool) (models : list str) :
  match first_working works models with
  | Some model =>
      ∃ pre post, models = pre ++ model :: post
        ∧ Forall (λ m, works m = false) pre ∧ works model = true
  | None => Forall (λ m, works m = false) models
  end.
Proof.
  induction models as [|m models IH]; [by constructor|].
  cbn [first_working]. destruct (works m) eqn:Hm.
  - by exists [], models.
  - destruct (first_working works models) as [model|].
    + destruct IH as (pre & post & -> & Hpre & Hmodel).
      exists (m :: pre), post. split; [done|]. split; [by constructor|done].
    + by constructor.
Qed.

End ResolverBeyond.

(** X19: every path that [_extract_file_paths] returns exists, ends with
    [.py] and stands in the issue text. *)
Theorem extract_file_paths_sound (path_exists : str → option bool)
  (issue_description : str) (files : list str) (file_path : str) :
  _extract_file_paths path_exists issue_description = Some files →
  file_path ∈ files →
  path_exists file_path = Some true
  ∧ endswith file_path (lit ".py") = true
  ∧ ∃ pre post, issue_description = pre ++ file_path ++ post.
Proof.
  unfold _extract_file_paths. intros [-> _]%existing_spec Hin.
  apply list_elem_of_In, filter_In in Hin as [Hin Hexists].
  apply bool_decide_eq_true in Hexists. split; [done|].
  apply in_flat_map in Hin as (pattern & Hpattern & Hin).
  apply list_elem_of_In in Hpattern, Hin.
  apply findall_from_elem in Hin as (pre & s' & len & -> & Hmatch).
  destruct (file_patterns_spec pattern s' file_path len Hpattern Hmatch)
    as (Hpy & pre' & post & ->).
  split; [done|]. exists (pre ++ pre'), post. by rewrite <- !app_assoc.
Qed.

Lemma extract_file_paths_sound_witness :
  let path_exists := λ f, Some (bool_decide (f = lit "examples/auth.py")) in
  let issue := lit "Error in examples/auth.py line 42, not in utils.py" in
  _extract_file_paths path_exists issue
    = Some [lit "examples/auth.py"; lit "examples/auth.py"]
  ∧ path_exists (lit "examples/auth.py") = Some true
  ∧ endswith (lit "examples/auth.py") (lit ".py") = true.
Proof.
  intros path_exists issue.
  assert (_extract_file_paths path_exists issue
            = Some [lit "examples/auth.py"; lit "examples/auth.py"]) as Hfiles
    by (vm_compute; reflexivity).
  split; [exact Hfiles|].
  destruct (extract_file_paths_sound path_exists issue _
              (lit "examples/auth.py") Hfiles) as (Hexists & Hpy & _).
  - apply elem_of_cons. left. reflexivity.
  - split; [exact Hexists|exact Hpy].
Defined.

Section RoutingBeyond.

Implicit Types s g : str.

Lemma findall_holds_py pattern s g :
  pattern ∈ file_patterns → g ∈ findall pattern s →
  contains (lit ".py") s = true.
Proof.
  intros Hpattern (pre & s' & len & -> & Hmatch)%findall_from_elem.
  destruct (file_patterns_spec pattern s' g len Hpattern Hmatch)
    as ((x & ->)%endswith_inv & pre' & post & ->).
  replace (pre ++ pre' ++ (x ++ lit ".py") ++ post)
    with ((pre ++ pre' ++ x) ++ lit ".py" ++ post) by by rewrite <- !app_assoc.
  apply contains_app.
Qed.

Lemma match_path_no_space s g : match_path s = Some g → 32%N ∉ g.
Proof.
  intros (_ & _ & c & run & -> & Hc & Hrun)%match_path_spec.
  apply not_elem_of_cons. split; [by intros <-|].
  apply not_elem_of_app. split.
  - intros Hin. rewrite Forall_forall in Hrun. by apply Hrun in Hin.
  - intros Hin%list_elem_of_In. vm_compute in Hin.
    by destruct Hin as [|[|[|[]]]].
Qed.

(** A match of the bare pattern does not reach over a space. *)
Lemma pattern_bare_before_space (a b : str) g len :
  pattern_bare (a ++ 32%N :: b) = Some (g, len) → len ≤ length a.
Proof.
  unfold pattern_bare.
  destruct (match_path (a ++ 32%N :: b)) as [g'|] eqn:Hg; [|done].
  intros [= <- <-]. pose proof (match_path_no_space _ _ Hg) as Hspace.
  apply match_path_spec in Hg as (_ & (post & Hpost) & _).
  apply app_eq_inv in Hpost as [(k & -> & _)|(k & -> & Hk)].
  - rewrite length_app. lia.
  - destruct k as [|x k]; [rewrite app_nil_r; lia|].
    injection Hk as <- _. destruct Hspace.
    apply elem_of_app. right. left.
Qed.

(** The search for the bare pattern goes on behind a space as if it began
    there. *)
Lemma findall_bare_behind_space (pre t : str) (skip : nat) g :
  skip ≤ length pre →
  g ∈ findall_from pattern_bare 0 t →
  g ∈ findall_from pattern_bare skip (pre ++ 32%N :: t).
Proof.
  intros Hskip Hg. revert skip Hskip.
  induction pre as [|c pre IH]; intros skip Hskip.
  - destruct skip; [|simpl in Hskip; lia]. done.
  - cbn [app findall_from]. destruct skip as [|k].
    + destruct (pattern_bare (c :: pre ++ 32%N :: t)) as [[g' len]|] eqn:Hmatch.
      * apply (pattern_bare_before_space (c :: pre)) in Hmatch.
        right. apply IH. simpl in Hmatch. lia.
      * apply IH. lia.
    + apply IH. simpl in Hskip. lia.
Qed.

(** What follows [in] and a space as a path is found by the bare pattern
    too. *)
Lemma findall_in_bare s g :
  g ∈ findall pattern_in s → g ∈ findall pattern_bare s.
Proof.
  intros (pre & s' & len & -> & Hmatch)%findall_from_elem.
  unfold pattern_in in Hmatch.
  destruct (startswith s' (lit "in ")) eqn:Hin; [|done].
  destruct (match_path (drop 3 s')) as [g'|] eqn:Hg; [|done].
  injection Hmatch as -> _. apply startswith_drop in Hin.
  change (length (lit "in ")) with 3 in Hin. rewrite Hin.
  replace (pre ++ lit "in " ++ drop 3 s')
    with ((pre ++ lit "in") ++ 32%N :: drop 3 s') by by rewrite <- app_assoc.
  apply findall_bare_behind_space; [lia|].
  destruct (drop 3 s') as [|c t] eqn:Ht; [done|].
  cbn [findall_from]. unfold pattern_bare at 1. rewrite Hg. left.
Qed.

End RoutingBeyond.

(** X20: an issue text that does not hold [.py] mentions no file: the file
    resolver returns the empty list without a question to the file system,
    and [analyze_bug] takes the ReAct path and returns its record. *)
Theorem analyze_bug_without_paths (path_exists : str → option bool)
  (env : environment) (claude : provider) (issue_description : str)
  (max_iterations : Z) :
  contains (lit ".py") issue_description = false →
  _extract_file_paths path_exists issue_description = Some []
  ∧ ∃ a st,
      _analyze_bug_react env claude issue_description max_iterations
        = Some (a, st)
      ∧ analyze_bug path_exists env claude issue_description max_iterations
        = Some (Some a).
Proof.
  intros Hnone.
  assert (flat_map (λ pattern, findall pattern issue_description) file_patterns
            = []) as Hfiles.
  { destruct (flat_map _ _) as [|g gs] eqn:Hgs; [done|].
    assert (In g (flat_map (λ pattern, findall pattern issue_description)
                    file_patterns)) as Hg by (rewrite Hgs; by left).
    apply in_flat_map in Hg as (pattern & Hpattern & Hg).
    apply list_elem_of_In in Hpattern, Hg.
    by rewrite (findall_holds_py pattern _ g Hpattern Hg) in Hnone. }
  assert (_extract_file_paths path_exists issue_description = Some []) as Hnopaths
    by (unfold _extract_file_paths; by rewrite Hfiles).
  split; [done|].
  destruct (react_loop_terminates env claude max_iterations
              (S (Z.to_nat max_iterations)) (initial_state issue_description))
    as [[a st] Hrun]; [simpl; lia|].
  exists a, st. split; [done|].
  unfold analyze_bug, _analyze_bug_react. by rewrite Hnopaths, Hrun.
Qed.

Lemma analyze_bug_without_paths_witness :
  contains (lit ".py") Scenario.issue = false
  ∧ _extract_file_paths (λ _, None) Scenario.issue = Some []
  ∧ ∃ a,
      analyze_bug (λ _, None) Scenario.disk Scenario.decided Scenario.issue 3
        = Some (Some a).
Proof.
  assert (contains (lit ".py") Scenario.issue = false) as Hnone
    by (vm_compute; reflexivity).
  split; [exact Hnone|].
  destruct (analyze_bug_without_paths (λ _, None) Scenario.disk
              Scenario.decided Scenario.issue 3 Hnone)
    as (Hpaths & a & st & _ & Hresult).
  split; [exact Hpaths|]. exists a. exact Hresult.
Defined.

(** X21: [analyze_bug] returns no result only on the direct path: the file
    resolver has found a file, and the one call of the model has failed. *)
Theorem analyze_bug_no_result (path_exists : str → option bool)
  (env : environment) (claude : provider) (issue_description : str)
  (max_iterations : Z) :
  analyze_bug path_exists env claude issue_description max_iterations
    = Some None →
  ∃ files e,
    _extract_file_paths path_exists issue_description = Some files
    ∧ files ≠ []
    ∧ claude 0 [ {| msg_role := user;
                    content := (direct_prompt env issue_description
                                  (Some files)).1 |} ]
      = ProviderError e.
Proof.
  unfold analyze_bug.
  destruct (_extract_file_paths path_exists issue_description)
    as [[|f files]|]; [|simpl|done].
  - destruct (react_loop_terminates env claude max_iterations
                (S (Z.to_nat max_iterations)) (initial_state issue_description))
      as [[a st] Hrun]; [simpl; lia|].
    unfold _analyze_bug_react. by rewrite Hrun.
  - intros [= Hdirect]. apply analyze_bug_direct_result in Hdirect as [e He].
    by exists (f :: files), e.
Qed.

Lemma analyze_bug_no_result_witness :
  let path_exists := λ f, Some (bool_decide (f = lit "a.py")) in
  analyze_bug path_exists Scenario.disk Scenario.failing
    (lit "f fails in a.py") 3 = Some None
  ∧ ∃ files,
      _extract_file_paths path_exists (lit "f fails in a.py") = Some files
      ∧ files ≠ [].
Proof.
  intros path_exists.
  assert (analyze_bug path_exists Scenario.disk Scenario.failing
            (lit "f fails in a.py") 3 = Some None) as Hnone
    by (vm_compute; reflexivity).
  split; [exact Hnone|].
  destruct (analyze_bug_no_result _ _ _ _ _ Hnone)
    as (files & e & Hfiles & Hne & _).
  exists files. split; [exact Hfiles|exact Hne].
Defined.

(** X22: [_find_working_model] returns the first model of the list of
    preference whose test call succeeds; when no test call succeeds, it
    returns the first model of the list. *)
Theorem find_working_model_first (works : str → bool) :
  let model := _find_working_model works in
  ∃ pre post,
    AVAILABLE_MODELS = pre ++ model :: post
    ∧ Forall (λ m, works m = false) pre
    ∧ (works model = true
       ∨ (pre = [] ∧ Forall (λ m, works m = false) AVAILABLE_MODELS)).
Proof.
  intros model. subst model. unfold _find_working_model.
  pose proof (first_working_spec works AVAILABLE_MODELS) as Hfirst.
  destruct (first_working works AVAILABLE_MODELS) as [model|].
  - destruct Hfirst as (pre & post & Hlist & Hpre & Hmodel).
    exists pre, post. split; [done|]. split; [done|]. by left.
  - exists [], (drop 1 AVAILABLE_MODELS). split; [done|].
    split; [by constructor|]. by right.
Qed.

(** X23: a path that the issue text holds behind [in] and a space is found
    by the second pattern and by the third: when it exists,
    [_extract_file_paths] returns it at least twice. *)
Theorem extract_file_paths_twice (path_exists : str → option bool)
  (issue_description : str) (files : list str) (file_path : str) :
  _extract_file_paths path_exists issue_description = Some files →
  file_path ∈ findall pattern_in issue_description →
  path_exists file_path = Some true →
  file_path ∈ findall pattern_bare issue_description
  ∧ 2 ≤ length (List.filter (λ f, bool_decide (f = file_path)) files).
Proof.
  intros Hfiles Hin Hexists. pose proof (findall_in_bare _ _ Hin) as Hbare.
  split; [done|].
  unfold _extract_file_paths in Hfiles.
  apply existing_spec in Hfiles as [-> _].
  cbn [flat_map file_patterns]. rewrite app_nil_r.
  rewrite !List.filter_app, !length_app.
  assert (∀ l : list str, file_path ∈ l →
            1 ≤ length (List.filter (λ f, bool_decide (f = file_path))
                          (List.filter
                             (λ f, bool_decide (path_exists f = Some true)) l)))
    as Hone.
  { intros l Hl.
    assert (In file_path
              (List.filter (λ f, bool_decide (f = file_path))
                 (List.filter (λ f, bool_decide (path_exists f = Some true)) l)))
      as Hfound.
    { apply filter_In. split; [|by apply bool_decide_eq_true].
      apply filter_In. split; [by apply list_elem_of_In|].
      by apply bool_decide_eq_true. }
    destruct (List.filter _ _); [done|simpl; lia]. }
  pose proof (Hone _ Hin). pose proof (Hone _ Hbare). lia.
Qed.

Lemma extract_file_paths_twice_witness :
  let path_exists := λ f, Some (bool_decide (f = lit "auth.py")) in
  let issue := lit "The crash is in auth.py on login" in
  _extract_file_paths path_exists issue = Some [lit "auth.py"; lit "auth.py"]
  ∧ lit "auth.py" ∈ findall pattern_in issue
  ∧ lit "auth.py" ∈ findall pattern_bare issue.
Proof.
  intros path_exists issue.
  assert (_extract_file_paths path_exists issue
            = Some [lit "auth.py"; lit "auth.py"]) as Hfiles
    by (vm_compute; reflexivity).
  assert (lit "auth.py" ∈ findall pattern_in issue) as Hin.
  { replace (findall pattern_in issue) with [lit "auth.py"]
      by (vm_compute; reflexivity).
    apply list_elem_of_singleton. reflexivity. }
  split; [exact Hfiles|]. split; [exact Hin|].
  exact (proj1 (extract_file_paths_twice path_exists issue _ _ Hfiles Hin
                  eq_refl)).
Defined.

Section RaisingBeyond.

Lemma existing_raises (path_exists : str → option bool) (files : list str) :
  existing path_exists files = None
  ↔ ∃ f, f ∈ files ∧ path_exists f = None.
Proof.
  induction files as [|f files IH].
  - split; [done|]. by intros (? & ?%not_elem_of_nil & _).
  - cbn [existing]. destruct (path_exists f) as [b|] eqn:Hf; simpl.
    + destruct (existing path_exists files) as [rest|]; simpl.
      * split; [done|]. intros (f' & [->|Hin]%elem_of_cons & Hf'); [congruence|].
        assert (Some rest = None) as Hnone; [|done].
        apply IH. by exists f'.
      * split; [|done]. intros _.
        destruct (proj1 IH eq_refl) as (f' & Hin & Hf').
        exists f'. split; [by right|done].
    + split; [|done]. intros _. exists f. split; [by left|done].
Qed.

End RaisingBeyond.

(** X24: [analyze_bug] raises exactly when the file system raises on the
    question whether one of the paths exists that the three patterns find in
    the issue text; no other exception leaves it. *)
Theorem analyze_bug_raises (path_exists : str → option bool)
  (env : environment) (claude : provider) (issue_description : str)
  (max_iterations : Z) :
  analyze_bug path_exists env claude issue_description max_iterations = None
  ↔ ∃ pattern file_path,
      pattern ∈ file_patterns
      ∧ file_path ∈ findall pattern issue_description
      ∧ path_exists file_path = None.
Proof.
  unfold analyze_bug, _extract_file_paths.
  destruct (existing path_exists _) as [files|] eqn:Hfiles; simpl.
  - split; [done|]. intros (pattern & f & Hpattern & Hf & Hraise).
    assert (existing path_exists
              (flat_map (λ pattern, findall pattern issue_description)
                 file_patterns) = None) as Hnone; [|congruence].
    apply existing_raises. exists f. split; [|done].
    apply list_elem_of_In, in_flat_map. exists pattern.
    by rewrite <- !list_elem_of_In.
  - split; [|done]. intros _.
    apply existing_raises in Hfiles as (f & Hf & Hraise).
    apply list_elem_of_In, in_flat_map in Hf as (pattern & Hpattern & Hf).
    exists pattern, f. by rewrite !list_elem_of_In.
Qed.

(** ** Publishing *)

Section PublishBeyond.

Lemma add_steps_counter (traces : list str) (content : str) (k : nat) :
  (foldl add_step (content, k) traces).2 = k + length traces.
Proof.
  revert content k. induction traces as [|t traces IH]; intros content k.
  - simpl. lia.
  - cbn [foldl add_step]. rewrite IH. simpl. lia.
Qed.

End PublishBeyond.

(** X25: the report that [create_analysis_pr] commits is its head, with the
    fields of the record, and one section for each entry of the reasoning
    trace, in the order of the trace and numbered from 1: a further entry
    adds its section at the end and changes nothing before it. *)
Theorem analysis_content_steps (i : issue) (a : BugAnalysis)
  (traces : list str) (t : str) :
  analysis_content i (set_reasoning_trace a []) = report_head i a
  ∧ analysis_content i (set_reasoning_trace a (traces ++ [t]))
    = analysis_content i (set_reasoning_trace a traces)
      ++ [nl] ++ lit "### Step " ++ str_of_int (Z.of_nat (S (length traces)))
      ++ [nl] ++ t ++ [nl].
Proof.
  split; [done|]. unfold analysis_content.
  cbn [reasoning_trace set_reasoning_trace].
  change (report_head i (set_reasoning_trace a (traces ++ [t])))
    with (report_head i a).
  change (report_head i (set_reasoning_trace a traces))
    with (report_head i a).
  rewrite foldl_snoc.
  pose proof (add_steps_counter traces (report_head i a) 1) as Hcount.
  destruct (foldl add_step (report_head i a, 1) traces) as [content k].
  cbn [fst snd add_step] in *. by subst k.
Qed.

(** X26: [create_analysis_pr] returns the url of a pull request exactly when
    a repository is configured, the main ref is read, the branch is created
    or the error of its creation says that it already exists, and the pull
    request is opened; what the commit of the report does never matters.  The
    calls that it makes are the first ones of: read the ref, create the
    branch, commit the report, open the pull request, always for the branch
    of the issue. *)
Theorem create_analysis_pr_outcome (repo : option repository) (i : issue)
  (analysis : BugAnalysis) (html_url : str) :
  ((create_analysis_pr repo i analysis).1 = Some html_url
   ↔ ∃ r sha,
       repo = Some r
       ∧ r (GetGitRef (lit "heads/main")) = Ok sha
       ∧ (match r (CreateGitRef (lit "refs/heads/" ++ new_branch i) sha) with
          | Ok _ => True
          | Raise e => contains (lit "already exists") e = true
          end)
       ∧ r (pr_call i analysis) = Ok html_url)
  ∧ ∃ sha,
      (create_analysis_pr repo i analysis).2
      `prefix_of` [GetGitRef (lit "heads/main");
                   CreateGitRef (lit "refs/heads/" ++ new_branch i) sha;
                   file_call i analysis; pr_call i analysis].
Proof.
  unfold create_analysis_pr. destruct repo as [r|].
  - destruct (r (GetGitRef (lit "heads/main"))) as [sha|e] eqn:Hget.
    + split.
      * destruct (r (CreateGitRef _ sha)) as [?|e] eqn:Hbranch.
        -- destruct (r (pr_call i analysis)) as [url|e'] eqn:Hcall; cbn [fst].
           ++ split.
              ** intros [= ->]. exists r, sha. by rewrite Hbranch.
              ** intros (r' & sha' & [= <-] & Hsha & _ & Hurl). congruence.
           ++ split; [done|].
              intros (r' & sha' & [= <-] & Hsha & _ & Hurl). congruence.
        -- destruct (contains (lit "already exists") e) eqn:Hexists.
           ++ destruct (r (pr_call i analysis)) as [url|e'] eqn:Hcall; cbn [fst].
              ** split.
                 --- intros [= ->]. exists r, sha. by rewrite Hbranch.
                 --- intros (r' & sha' & [= <-] & Hsha & _ & Hurl). congruence.
              ** split; [done|].
                 intros (r' & sha' & [= <-] & Hsha & _ & Hurl). congruence.
           ++ cbn [fst]. split; [done|].
              intros (r' & sha' & [= <-] & Hsha & Hraise & _).
              assert (sha' = sha) as -> by congruence.
              rewrite Hbranch in Hraise. congruence.
      * exists sha.
        destruct (r (CreateGitRef _ sha)) as [?|e];
          [|destruct (contains (lit "already exists") e)];
          try destruct (r (pr_call i analysis)); cbn [snd];
          try done; by eexists [_; _].
    + split.
      * cbn [fst]. split; [done|].
        intros (r' & sha' & [= <-] & Hsha & _). congruence.
      * exists []. cbn [snd]. by eexists [_; _; _].
  - split.
    + cbn [fst]. split; [done|]. by intros (? & ? & [=] & _).
    + exists []. cbn [snd]. by eexists.
Qed.

(** ** Two more compositions *)

Section CompositionBeyond.

Local Abbreviation MARKER := (lit "TOOL_REQUEST:").
Local Abbreviation FILE := (lit "FILE:").

Lemma last_value_unlabelled_cons label raw lines :
  labelled label raw = false →
  last_value label (raw :: lines) = last_value label lines.
Proof.
  intros Hraw. rewrite last_value_cons, Hraw. by destruct (last_value _ _).
Qed.

Lemma last_value_unlabelled_snoc label raw lines :
  labelled label raw = false →
  last_value label (lines ++ [raw]) = last_value label lines.
Proof.
  intros Hraw. unfold last_value, field_values.
  rewrite List.filter_app. simpl. rewrite Hraw. by rewrite app_nil_r.
Qed.

(** The lines that two markers on adjacent lines look at differ by the second
    marker and by the fifth line behind the first. *)
Lemma adjacent_windows (lines : list str) (i : nat) raw' :
  lines !! S i = Some raw' →
  (∀ raw5, lines !! (i + 5) = Some raw5 → labelled FILE raw5 = false) →
  labelled FILE raw' = false →
  last_value FILE (take 4 (drop (S i) lines))
    = last_value FILE (take 4 (drop (S (S i)) lines)).
Proof.
  intros Hraw' Hfifth Hmarker.
  rewrite (drop_S lines raw' (S i)) by done.
  cbn [take]. rewrite last_value_unlabelled_cons by done.
  destruct (lines !! (i + 5)) as [raw5|] eqn:Hraw5.
  - assert (drop (S (S i)) lines !! 3 = Some raw5) as Hlook.
    { rewrite lookup_drop. by replace (S (S i) + 3) with (i + 5) by lia. }
    rewrite (take_S_r _ 3 raw5) by done.
    by rewrite last_value_unlabelled_snoc by by apply Hfifth.
  - f_equal. rewrite !take_ge; [done| |];
      rewrite length_drop; apply lookup_ge_None_1 in Hraw5; lia.
Qed.

End CompositionBeyond.

(** X27: the lines behind a marker are read without regard to a further
    marker among them.  When two marker lines are adjacent and the fifth line
    behind the first is no [FILE:] line, both get the same path: both yield
    a request for it, or none does. *)
Theorem adjacent_markers_share_path (lines : list str) (i : nat)
  (raw raw' : str) :
  lines !! i = Some raw → labelled (lit "TOOL_REQUEST:") raw = true →
  lines !! S i = Some raw' → labelled (lit "TOOL_REQUEST:") raw' = true →
  (∀ raw5, lines !! (i + 5) = Some raw5 →
           labelled (lit "FILE:") raw5 = false) →
  file_path <$> request_at lines i = file_path <$> request_at lines (S i).
Proof.
  intros Hraw Hmarker Hraw' Hmarker' Hfifth.
  rewrite !request_at_spec by (by eapply lookup_lt_Some).
  unfold spec_request_at. rewrite Hraw, Hraw'. simpl.
  rewrite Hmarker, Hmarker'.
  assert (labelled (lit "FILE:") raw' = false) as Hnofile.
  { pose proof Hmarker' as Hstart. unfold labelled in Hstart.
    other_label Hstart. }
  rewrite (adjacent_windows lines i raw') by done.
  destruct (last_value (lit "FILE:") _) as [path|]; [simpl|done].
  by destruct (truthy path).
Qed.

Lemma adjacent_markers_share_path_witness :
  let lines := [lit "TOOL_REQUEST: read_file"; lit "TOOL_REQUEST: grep";
                lit "FILE: a.py"] in
  file_path <$> request_at lines 0 = [Some (lit "a.py")]
  ∧ file_path <$> request_at lines 1 = [Some (lit "a.py")].
Proof.
  intros lines.
  assert (file_path <$> request_at lines 0 = file_path <$> request_at lines 1)
    as Hshare.
  { apply (adjacent_markers_share_path lines 0 (lit "TOOL_REQUEST: read_file")
             (lit "TOOL_REQUEST: grep"));
      [reflexivity|vm_compute; reflexivity|reflexivity|vm_compute; reflexivity|].
    intros raw5 [=]. }
  split; [rewrite Hshare|]; vm_compute; reflexivity.
Defined.

(** X28: in local mode, on a file system that answers the fetcher as it has
    answered the resolver, [analyze_bug] takes the direct path with the files
    that the resolver has found, and none of them is read as
    [File not found:]. *)
Theorem analyze_bug_reads_found_files (path_exists : str → option bool)
  (env : environment) (claude : provider) (issue_description : str)
  (max_iterations : Z) (files : list str) :
  repo env = None →
  (∀ f, path_exists f = Some true → local_fs env f ≠ Missing) →
  _extract_file_paths path_exists issue_description = Some files →
  files ≠ [] →
  analyze_bug path_exists env claude issue_description max_iterations
    = Some (analyze_bug_direct env claude issue_description (Some files))
  ∧ Forall (λ f, startswith (read_file_content env f None None)
                   (lit "File not found:") = false) files.
Proof.
  intros Hlocal Hsame Hfiles Hne. split.
  - unfold analyze_bug. rewrite Hfiles. simpl. by destruct files.
  - unfold _extract_file_paths in Hfiles.
    apply existing_spec in Hfiles as [-> _].
    apply Forall_forall. intros f Hf.
    apply list_elem_of_In, filter_In in Hf as [_ Hexists].
    apply bool_decide_eq_true, Hsame in Hexists.
    unfold read_file_content. rewrite Hlocal.
    destruct (local_fs env f) as [|[content|e]]; [done| |done].
    unfold frame. by destruct (_ || _).
Qed.

Lemma analyze_bug_reads_found_files_witness :
  let path_exists := λ f, Some (bool_decide (f = lit "a.py")) in
  let issue := lit "f fails in a.py" in
  _extract_file_paths path_exists issue = Some [lit "a.py"; lit "a.py"]
  ∧ analyze_bug path_exists Scenario.disk Scenario.decided issue 3
    = Some (analyze_bug_direct Scenario.disk Scenario.decided issue
              (Some [lit "a.py"; lit "a.py"])).
Proof.
  intros path_exists issue.
  assert (_extract_file_paths path_exists issue
            = Some [lit "a.py"; lit "a.py"]) as Hfiles
    by (vm_compute; reflexivity).
  split; [exact Hfiles|].
  apply (analyze_bug_reads_found_files path_exists Scenario.disk
           Scenario.decided issue 3 _ eq_refl); [|exact Hfiles|discriminate].
  intros f Hf. injection Hf as Hf. apply bool_decide_eq_true in Hf as ->.
  vm_compute. discriminate.
Defined.
